(** * goproxy.cn: the cache-and-redirect handler ([handler/goproxy.go])

    A shallow embedding of [handler/goproxy.go]: the redirect policy
    ([hGoproxy], [isAutoRedirectableGoproxyCache]), the write-behind cacher
    ([goproxyCacher.Get], [goproxyCacher.Set], the body of the background
    loop started by [startSetCache]) and the shutdown job registered by
    [init].

    Go strings are byte strings and are modelled by [string]; a [[]byte] is
    a list of 8-bit [Z]; [int64] values are [Z].  Local files and the
    [sync.Map] registry are finite maps.  The object-store client, the
    operating system and the content stream are external: their answers are
    explicit inputs of every operation, and every call made to them is
    appended to a log kept in the state, so that "this call was not made"
    is a statement about that log. *)

From Stdlib Require Import ZArith String Ascii List Bool Lia.
From stdpp Require Import base option list gmap strings.

Local Open Scope Z_scope.

(** ** Errors

    The [error] values the handler tells apart: [fs.ErrNotExist] and the
    [*fs.PathError] by which the [os] package wraps it, the two errors of
    [encoding/hex], the [minio.ErrorResponse] of the object-store client,
    and any other error ([errors.New]). *)

Inductive error : Type :=
  | ErrNotExist
  | PathError (op path : string) (err : error)
  | ErrLength
  | InvalidByteError (b : ascii)
  | ErrorResponse (statusCode : Z) (code : string)
  | errorString (msg : string).

(** [errors.Is(err, fs.ErrNotExist)]: follows the [Unwrap] chain. *)
Fixpoint errors_Is_ErrNotExist (err : error) : bool :=
  match err with
  | ErrNotExist => true
  | PathError _ _ err' => errors_Is_ErrNotExist err'
  | _ => false
  end.

(** A [[]byte] value and the conversion [[]byte(s)] of a string. *)
Definition bytes : Type := list Z.

Definition bytes_of_string (s : string) : bytes :=
  map (fun c => Z.of_N (N_of_ascii c)) (list_ascii_of_string s).

(** ** Go's [strings] and [path] functions used by the handler *)

Module strings.

(** [func HasPrefix(s, prefix string) bool]:
    [len(s) >= len(prefix) && s[:len(prefix)] == prefix]. *)
Definition HasPrefix (s prefix : string) : bool :=
  (String.length prefix <=? String.length s)%nat
  && String.eqb (substring 0 (String.length prefix) s) prefix.

(** [func Index(s, substr string) int]: the index of the first instance of
    [substr] in [s], or -1. *)
Fixpoint IndexFrom (i : Z) (s substr : string) : Z :=
  if HasPrefix s substr then i
  else match s with
       | EmptyString => -1
       | String _ rest => IndexFrom (i + 1) rest substr
       end.

Definition Index (s substr : string) : Z := IndexFrom 0 s substr.

(** [func Contains(s, substr string) bool { return Index(s, substr) >= 0 }]. *)
Definition Contains (s substr : string) : bool := 0 <=? Index s substr.

(** [func TrimPrefix(s, prefix string) string]. *)
Definition TrimPrefix (s prefix : string) : string :=
  if HasPrefix s prefix
  then substring (String.length prefix)
                 (String.length s - String.length prefix) s
  else s.

End strings.

Module path.

(** [func Ext(path string) string]:
<<
    for i := len(path) - 1; i >= 0 && path[i] != '/'; i-- {
        if path[i] == '.' { return path[i:] }
    }
    return ""
>>
    [ExtFrom p n] is the loop entered with [i = n - 1]. *)
Fixpoint ExtFrom (p : string) (n : nat) : string :=
  match n with
  | O => ""
  | S i =>
      match String.get i p with
      | Some c =>
          if Ascii.eqb c "/" then ""
          else if Ascii.eqb c "." then substring i (String.length p - i) p
          else ExtFrom p i
      | None => ""
      end
  end.

Definition Ext (p : string) : string := ExtFrom p (String.length p).

(** The write buffer of [Clean] ([lazybuf]) is kept reversed: its head is
    the byte at index [w - 1]. *)

(** The backtracking of a [..] element, entered after [out.w--] with the
    head of the list being [out.index(out.w)]:
    [for out.w > dotdot && out.index(out.w) != '/' { out.w-- }]. *)
Fixpoint unwind (buf : list ascii) (w dotdot : nat) : list ascii :=
  match buf with
  | [] => []
  | c :: buf' =>
      if (dotdot <? w)%nat && negb (Ascii.eqb c "/")
      then unwind buf' (w - 1) dotdot
      else buf'
  end.

(** [for ; r < n && path[r] != '/'; r++ { out.append(path[r]) }]. *)
Fixpoint copyElem (rest : string) (out : list ascii) : string * list ascii :=
  match rest with
  | EmptyString => (rest, out)
  | String c rest' =>
      if Ascii.eqb c "/" then (rest, out) else copyElem rest' (c :: out)
  end.

Definition startsElemEnd (rest : string) : bool :=
  match rest with
  | EmptyString => true
  | String c _ => Ascii.eqb c "/"
  end.

(** One turn of the loop [for r < n] of [Clean], entered with
    [path[r:] = String c rest1], the write buffer [out] and [dotdot]: the
    [switch] on [path[r]].  It returns what is left of the path, the buffer
    and [dotdot]. *)
Definition cleanStep (rooted : bool) (c : ascii) (rest1 : string)
    (out : list ascii) (dotdot : nat) : string * list ascii * nat :=
  let element :=
    let out1 :=
      if (rooted && negb (List.length out =? 1)%nat)
         || (negb rooted && negb (List.length out =? 0)%nat)
      then "/"%char :: out else out in
    let '(rest', out2) := copyElem (String c rest1) out1 in
    (rest', out2, dotdot) in
  if Ascii.eqb c "/" then (rest1, out, dotdot)
  else if Ascii.eqb c "." && startsElemEnd rest1 then (rest1, out, dotdot)
  else
    match rest1 with
    | String c1 rest2 =>
        if Ascii.eqb c "." && Ascii.eqb c1 "." && startsElemEnd rest2
        then
          if (dotdot <? List.length out)%nat
          then (rest2, unwind out (List.length out - 1) dotdot, dotdot)
          else if negb rooted
          then
            let out1 :=
              if (0 <? List.length out)%nat then "/"%char :: out else out in
            let out2 := "."%char :: "."%char :: out1 in
            (rest2, out2, List.length out2)
          else (rest2, out, dotdot)
        else element
    | EmptyString => element
    end.

(** The loop [for r < n]; [rest] is [path[r:]], and every turn shortens
    it. *)
Fixpoint cleanLoop (fuel : nat) (rooted : bool) (rest : string)
    (out : list ascii) (dotdot : nat) : list ascii :=
  match fuel with
  | O => out
  | S fuel' =>
      match rest with
      | EmptyString => out
      | String c rest1 =>
          let '(rest', out', dotdot') := cleanStep rooted c rest1 out dotdot in
          cleanLoop fuel' rooted rest' out' dotdot'
      end
  end.

(** [func Clean(path string) string]. *)
Definition Clean (p : string) : string :=
  match p with
  | EmptyString => "."
  | String c rest =>
      let rooted := Ascii.eqb c "/" in
      let out :=
        if rooted
        then cleanLoop (String.length rest) rooted rest ["/"%char] 1
        else cleanLoop (String.length p) rooted p [] 0 in
      match out with
      | [] => "."
      | _ => string_of_list_ascii (rev out)
      end
  end.

End path.

Module filepath.

(** [func Join(elem ...string) string] for the two elements [Set] passes,
    with the separator of a Unix host: the elements from the first
    non-empty one on are joined by [/] and the result is cleaned. *)
Definition Join (a b : string) : string :=
  if negb (String.eqb a "") then path.Clean (a ++ "/" ++ b)
  else if negb (String.eqb b "") then path.Clean b
  else "".

(** [func Abs(path string) (string, error)] on a Unix host, in a process
    whose working directory ([os.Getwd()]) is [wd]:
<<
    if IsAbs(path) { return Clean(path), nil }
    ...
    return Join(wd, path), nil
>> *)
Definition Abs (wd p : string) : string :=
  if strings.HasPrefix p "/" then path.Clean p else Join wd p.

End filepath.

(** ** [encoding/hex] *)

Module hex.

Definition hextable : string := "0123456789abcdef".

Definition digit (n : Z) : ascii :=
  match String.get (Z.to_nat n) hextable with
  | Some c => c
  | None => "0"%char
  end.

(** [func EncodeToString(src []byte) string]: two digits per byte,
    [hextable[v>>4]] then [hextable[v&0x0f]]. *)
Fixpoint EncodeToString (src : bytes) : string :=
  match src with
  | [] => ""
  | v :: rest =>
      String (digit (Z.shiftr v 4))
             (String (digit (Z.land v 15)) (EncodeToString rest))
  end.

(** [fromHexChar]: the value of a digit [0-9], [a-f] or [A-F]. *)
Definition fromHexChar (c : ascii) : option Z :=
  let n := Z.of_N (N_of_ascii c) in
  if (48 <=? n) && (n <=? 57) then Some (n - 48)
  else if (97 <=? n) && (n <=? 102) then Some (n - 97 + 10)
  else if (65 <=? n) && (n <=? 70) then Some (n - 65 + 10)
  else None.

(** [func Decode(dst, src []byte) (int, error)] together with
    [func DecodeString(s string) ([]byte, error)], which returns
    [dst[:n]] and the error: the bytes decoded before the first error are
    returned with it.
<<
    i, j := 0, 1
    for ; j < len(src); j += 2 {
        a, ok := fromHexChar(src[j-1]); if !ok { return i, InvalidByteError(src[j-1]) }
        b, ok := fromHexChar(src[j]);   if !ok { return i, InvalidByteError(src[j]) }
        dst[i] = (a << 4) | b
        i++
    }
    if len(src)%2 == 1 {
        if _, ok := fromHexChar(src[j-1]); !ok { return i, InvalidByteError(src[j-1]) }
        return i, ErrLength
    }
    return i, nil
>> *)
Fixpoint DecodeString (s : string) : bytes * option error :=
  match s with
  | EmptyString => ([], None)
  | String p EmptyString =>
      match fromHexChar p with
      | None => ([], Some (InvalidByteError p))
      | Some _ => ([], Some ErrLength)
      end
  | String p (String q rest) =>
      match fromHexChar p with
      | None => ([], Some (InvalidByteError p))
      | Some a =>
          match fromHexChar q with
          | None => ([], Some (InvalidByteError q))
          | Some b =>
              let '(dst, err) := DecodeString rest in
              (Z.lor (Z.shiftl a 4) b :: dst, err)
          end
      end
  end.

End hex.

(** ** [crypto/md5] and [crypto/sha256]

    The two digests as RFC 1321 and FIPS 180-4 define them, on 32-bit words
    held in [Z]. *)

Definition u32 (x : Z) : Z := x mod 4294967296.

Definition not32 (x : Z) : Z := Z.lxor x 4294967295.

Definition rotl32 (x s : Z) : Z :=
  u32 (Z.lor (Z.shiftl x s) (Z.shiftr x (32 - s))).

Definition rotr32 (x s : Z) : Z :=
  u32 (Z.lor (Z.shiftr x s) (Z.shiftl x (32 - s))).

Definition byte_at (x : Z) (k : Z) : Z := Z.land (Z.shiftr x (8 * k)) 255.

(** The message followed by [0x80], zeros up to 56 modulo 64, and room for
    the 64-bit bit length added by each digest in its own byte order. *)
Definition pad_zeros (data : bytes) : bytes :=
  data ++ [128]
       ++ replicate (Z.to_nat ((55 - Z.of_nat (List.length data)) mod 64)) 0.

Definition bit_length (data : bytes) : Z :=
  (8 * Z.of_nat (List.length data)) mod 18446744073709551616.

Module md5.

Definition Size : nat := 16.

Definition K : list Z :=
  [ 0xd76aa478; 0xe8c7b756; 0x242070db; 0xc1bdceee;
    0xf57c0faf; 0x4787c62a; 0xa8304613; 0xfd469501;
    0x698098d8; 0x8b44f7af; 0xffff5bb1; 0x895cd7be;
    0x6b901122; 0xfd987193; 0xa679438e; 0x49b40821;
    0xf61e2562; 0xc040b340; 0x265e5a51; 0xe9b6c7aa;
    0xd62f105d; 0x02441453; 0xd8a1e681; 0xe7d3fbc8;
    0x21e1cde6; 0xc33707d6; 0xf4d50d87; 0x455a14ed;
    0xa9e3e905; 0xfcefa3f8; 0x676f02d9; 0x8d2a4c8a;
    0xfffa3942; 0x8771f681; 0x6d9d6122; 0xfde5380c;
    0xa4beea44; 0x4bdecfa9; 0xf6bb4b60; 0xbebfbc70;
    0x289b7ec6; 0xeaa127fa; 0xd4ef3085; 0x04881d05;
    0xd9d4d039; 0xe6db99e5; 0x1fa27cf8; 0xc4ac5665;
    0xf4292244; 0x432aff97; 0xab9423a7; 0xfc93a039;
    0x655b59c3; 0x8f0ccc92; 0xffeff47d; 0x85845dd1;
    0x6fa87e4f; 0xfe2ce6e0; 0xa3014314; 0x4e0811a1;
    0xf7537e82; 0xbd3af235; 0x2ad7d2bb; 0xeb86d391 ].

Definition shifts : list Z :=
  [ 7; 12; 17; 22; 7; 12; 17; 22; 7; 12; 17; 22; 7; 12; 17; 22;
    5; 9; 14; 20; 5; 9; 14; 20; 5; 9; 14; 20; 5; 9; 14; 20;
    4; 11; 16; 23; 4; 11; 16; 23; 4; 11; 16; 23; 4; 11; 16; 23;
    6; 10; 15; 21; 6; 10; 15; 21; 6; 10; 15; 21; 6; 10; 15; 21 ].

(** Little-endian words of a block. *)
Fixpoint words (bs : bytes) : list Z :=
  match bs with
  | b0 :: b1 :: b2 :: b3 :: rest =>
      (b0 + 256 * b1 + 65536 * b2 + 16777216 * b3) :: words rest
  | _ => []
  end.

Definition word_bytes (x : Z) : bytes :=
  [byte_at x 0; byte_at x 1; byte_at x 2; byte_at x 3].

Definition state : Type := Z * Z * Z * Z.

Definition init : state := (0x67452301, 0xefcdab89, 0x98badcfe, 0x10325476).

Definition round (M : list Z) (st : state) (i : nat) : state :=
  let '(a, b, c, d) := st in
  let iz := Z.of_nat i in
  let '(f, g) :=
    if (i <? 16)%nat
    then (Z.lor (Z.land b c) (Z.land (not32 b) d), iz)
    else if (i <? 32)%nat
    then (Z.lor (Z.land d b) (Z.land (not32 d) c), (5 * iz + 1) mod 16)
    else if (i <? 48)%nat
    then (Z.lxor (Z.lxor b c) d, (3 * iz + 5) mod 16)
    else (Z.lxor c (Z.lor b (not32 d)), (7 * iz) mod 16) in
  let f' := u32 (f + a + nth i K 0 + nth (Z.to_nat g) M 0) in
  (d, u32 (b + rotl32 f' (nth i shifts 0)), b, c).

Definition block (st : state) (blk : bytes) : state :=
  let '(a0, b0, c0, d0) := st in
  let '(a, b, c, d) := fold_left (round (words blk)) (seq 0 64) st in
  (u32 (a0 + a), u32 (b0 + b), u32 (c0 + c), u32 (d0 + d)).

Fixpoint blocks (n : nat) (st : state) (bs : bytes) : state :=
  match n with
  | O => st
  | S n' => blocks n' (block st (take 64 bs)) (drop 64 bs)
  end.

Definition pad (data : bytes) : bytes :=
  pad_zeros data ++ map (byte_at (bit_length data)) [0; 1; 2; 3; 4; 5; 6; 7].

(** [func Sum(data []byte) [Size]byte]. *)
Definition Sum (data : bytes) : bytes :=
  let p := pad data in
  let '(a, b, c, d) := blocks (List.length p / 64) init p in
  word_bytes a ++ word_bytes b ++ word_bytes c ++ word_bytes d.

End md5.

Module sha256.

(** The round constants are the first 32 bits of the fractional parts of
    the cube roots of the first 64 primes, the initial hash value those of
    the square roots of the first 8. *)
Definition is_prime (p : nat) : bool :=
  forallb (fun d => negb (p mod d =? 0)%nat) (seq 2 (p - 2)).

Definition primes : list Z :=
  Eval vm_compute in map Z.of_nat (filter (fun p => is_prime p = true) (seq 2 310)).

(** The integer cube root, one bit at a time from bit [b] down. *)
Fixpoint cube_root (n : Z) (b : nat) (r : Z) : Z :=
  let r' := r + 2 ^ Z.of_nat b in
  let r1 := if r' * r' * r' <=? n then r' else r in
  match b with
  | O => r1
  | S b' => cube_root n b' r1
  end.

Definition K : list Z :=
  Eval vm_compute in map (fun p => u32 (cube_root (p * 2 ^ 96) 40 0)) primes.

Definition init : list Z :=
  Eval vm_compute in map (fun p => u32 (Z.sqrt (p * 2 ^ 64))) (take 8 primes).

(** Big-endian words of a block. *)
Fixpoint words (bs : bytes) : list Z :=
  match bs with
  | b0 :: b1 :: b2 :: b3 :: rest =>
      (16777216 * b0 + 65536 * b1 + 256 * b2 + b3) :: words rest
  | _ => []
  end.

Definition word_bytes (x : Z) : bytes :=
  [byte_at x 3; byte_at x 2; byte_at x 1; byte_at x 0].

(** The message schedule: [w] holds the first [length w] words. *)
Fixpoint schedule (n : nat) (w : list Z) : list Z :=
  match n with
  | O => w
  | S n' =>
      let i := List.length w in
      let w15 := nth (i - 15) w 0 in
      let w2 := nth (i - 2) w 0 in
      let s0 := Z.lxor (Z.lxor (rotr32 w15 7) (rotr32 w15 18)) (Z.shiftr w15 3) in
      let s1 := Z.lxor (Z.lxor (rotr32 w2 17) (rotr32 w2 19)) (Z.shiftr w2 10) in
      schedule n' (w ++ [u32 (nth (i - 16) w 0 + s0 + nth (i - 7) w 0 + s1)])
  end.

Definition round (W : list Z) (st : list Z) (i : nat) : list Z :=
  match st with
  | [a; b; c; d; e; f; g; h] =>
      let S1 := Z.lxor (Z.lxor (rotr32 e 6) (rotr32 e 11)) (rotr32 e 25) in
      let ch := Z.lxor (Z.land e f) (Z.land (not32 e) g) in
      let t1 := u32 (h + S1 + ch + nth i K 0 + nth i W 0) in
      let S0 := Z.lxor (Z.lxor (rotr32 a 2) (rotr32 a 13)) (rotr32 a 22) in
      let maj := Z.lxor (Z.lxor (Z.land a b) (Z.land a c)) (Z.land b c) in
      let t2 := u32 (S0 + maj) in
      [u32 (t1 + t2); a; b; c; u32 (d + t1); e; f; g]
  | _ => st
  end.

Definition block (st : list Z) (blk : bytes) : list Z :=
  let W := schedule 48 (words blk) in
  map (fun '(x, y) => u32 (x + y))
      (combine st (fold_left (round W) (seq 0 64) st)).

Fixpoint blocks (n : nat) (st : list Z) (bs : bytes) : list Z :=
  match n with
  | O => st
  | S n' => blocks n' (block st (take 64 bs)) (drop 64 bs)
  end.

Definition pad (data : bytes) : bytes :=
  pad_zeros data ++ map (byte_at (bit_length data)) [7; 6; 5; 4; 3; 2; 1; 0].

(** [func Sum256(data []byte) [Size]byte]. *)
Definition Sum256 (data : bytes) : bytes :=
  let p := pad data in
  concat (map word_bytes (blocks (List.length p / 64) init p)).

End sha256.

(** ** The outside world

    [time.Duration] counts nanoseconds. *)

Module time.
Definition Duration : Type := Z.
Definition Nanosecond : Duration := 1.
Definition Microsecond : Duration := 1000 * Nanosecond.
Definition Millisecond : Duration := 1000 * Microsecond.
Definition Second : Duration := 1000 * Millisecond.
Definition Minute : Duration := 60 * Second.
Definition Hour : Duration := 60 * Minute.
End time.

(** The fields of [minio.ObjectInfo] and [minio.PutObjectOptions] the
    handler reads or sets; [LastModified] is a [time.Time]. *)
Record ObjectInfo : Type := {
  ETag : string;
  Key : string;
  LastModified : Z;
  Size : Z
}.

Record PutObjectOptions : Type := {
  ContentType : string;
  DisableMultipart : bool
}.

(** A [*minio.Object]: the seekable stream of an object's body. *)
Record Object : Type := { body : string }.

(** A [url.Values] and the [String()] of a [*url.URL]. *)
Definition Values : Type := list (string * list string).

Record URL : Type := { URL_String : string }.

(** The object-store client ([qiniuKodoClient], a [*minio.Client]) as the
    answers it gives.  The context argument of each method is left out, and
    so are the options of [StatObject] and [GetObject], which the handler
    always leaves empty; [PutObject] is given the content of the file it
    reads. *)
Record Client : Type := {
  StatObject : string -> string -> ObjectInfo + error;
  GetObject : string -> string -> Object + error;
  PutObject : string -> string -> string -> Z -> PutObjectOptions -> option error;
  Presign : string -> string -> string -> time.Duration -> Values -> URL + error
}.

(** The content stream handed to [Set] (an [io.Reader]): the bytes it
    delivers, and the error that ends it when it does not end in [io.EOF]. *)
Record Reader : Type := {
  delivered : string;
  failure : option error
}.

(** The failures the operating system injects into one run of an operation,
    by file name: [None] lets the call go through.  [write_fails] gives the
    number of bytes that reached the file before the write failed. *)
Record OS : Type := {
  stat_fails : string -> option error;
  create_fails : string -> option error;
  open_fails : string -> option error;
  fstat_fails : string -> option error;
  write_fails : string -> option (nat * error);
  close_fails : string -> option error
}.

(** Calls that leave the process or touch shared state, as logged. *)
Inductive call : Type :=
  | call_Lock
  | call_Unlock
  | call_go_startSetCache
  | call_os_Stat (name : string)
  | call_os_Create (name : string)
  | call_os_Open (name : string)
  | call_os_Remove (name : string)
  | call_os_RemoveAll (name : string)
  | call_File_Stat (name : string)
  | call_File_Close (name : string)
  | call_io_Copy (dst : string) (src : Reader)
  | call_StatObject (bucket name : string)
  | call_PutObject (bucket name file : string) (size : Z) (opts : PutObjectOptions)
  | call_Sleep (d : time.Duration).

(** The state the cacher works on: the local files (name to content), the
    fields of [goproxyCacher] ([settingMutex] appears only as the [Lock] and
    [Unlock] calls of the log, [startSetCacheOnce] as whether it has fired)
    and the log of calls, oldest first. *)
Record state : Type := {
  files : gmap string string;
  localCacheRoot : string;
  settingCaches : gmap string string;
  startSetCacheOnce : bool;
  log : list call
}.

Definition set_files (f : gmap string string -> gmap string string)
    (s : state) : state :=
  {| files := f (files s); localCacheRoot := localCacheRoot s;
     settingCaches := settingCaches s;
     startSetCacheOnce := startSetCacheOnce s; log := log s |}.

Definition set_settingCaches (f : gmap string string -> gmap string string)
    (s : state) : state :=
  {| files := files s; localCacheRoot := localCacheRoot s;
     settingCaches := f (settingCaches s);
     startSetCacheOnce := startSetCacheOnce s; log := log s |}.

Definition set_startSetCacheOnce (b : bool) (s : state) : state :=
  {| files := files s; localCacheRoot := localCacheRoot s;
     settingCaches := settingCaches s;
     startSetCacheOnce := b; log := log s |}.

Definition add_log (c : call) (s : state) : state :=
  {| files := files s; localCacheRoot := localCacheRoot s;
     settingCaches := settingCaches s;
     startSetCacheOnce := startSetCacheOnce s; log := log s ++ [c] |}.

(** *** A state monad for the operations *)

Definition M (A : Type) : Type := state -> A * state.

Definition ret {A : Type} (a : A) : M A := fun s => (a, s).

Definition bind {A B : Type} (m : M A) (k : A -> M B) : M B :=
  fun s => let '(a, s') := m s in k a s'.

Declare Scope go_scope.
Delimit Scope go_scope with go.
Notation "x <- m ;; k" := (bind m (fun x => k))
  (at level 100, m at next level, right associativity) : go_scope.
Notation "m ;; k" := (bind m (fun _ => k))
  (at level 100, right associativity) : go_scope.

Definition gets {A : Type} (f : state -> A) : M A := fun s => (f s, s).

Definition modify (f : state -> state) : M unit := fun s => (tt, f s).

Definition do_call (c : call) : M unit := modify (add_log c).

Local Open Scope go_scope.

(** *** The [os], [io] and [sync] operations *)

(** [os.Stat(name)]: an injected failure, else [nil] for a file that is
    there and a [*PathError] wrapping [ErrNotExist] for one that is not. *)
Definition stat_error (os : OS) (fs : gmap string string) (name : string)
    : option error :=
  match stat_fails os name with
  | Some err => Some err
  | None =>
      match fs !! name with
      | Some _ => None
      | None => Some (PathError "stat" name ErrNotExist)
      end
  end.

Definition os_Stat (os : OS) (name : string) : M (option error) :=
  do_call (call_os_Stat name) ;;
  fs <- gets files ;;
  ret (stat_error os fs name).

(** [os.Create(name)]: creates the file or truncates it. *)
Definition os_Create (os : OS) (name : string) : M (option error) :=
  do_call (call_os_Create name) ;;
  match create_fails os name with
  | Some err => ret (Some err)
  | None => modify (set_files (insert name ""%string)) ;; ret None
  end.

(** [os.Open(name)]. *)
Definition open_error (os : OS) (fs : gmap string string) (name : string)
    : option error :=
  match open_fails os name with
  | Some err => Some err
  | None =>
      match fs !! name with
      | Some _ => None
      | None => Some (PathError "open" name ErrNotExist)
      end
  end.

Definition os_Open (os : OS) (name : string) : M (option error) :=
  do_call (call_os_Open name) ;;
  fs <- gets files ;;
  ret (open_error os fs name).

(** [Stat()] of the open [*os.File], of which the handler reads the [Size()]. *)
Definition File_Stat (os : OS) (name : string) : M (Z + error) :=
  do_call (call_File_Stat name) ;;
  fs <- gets files ;;
  ret match fstat_fails os name with
      | Some err => inr err
      | None => inl (Z.of_nat (String.length (default ""%string (fs !! name))))
      end.

(** [io.Copy(dst, src)] into the file [dst]: everything the stream delivers
    is written, and the stream's failure is returned; when the write fails,
    the bytes written before are in the file and the write's error is
    returned.  [copy_outcome] is what reaches the file, and the error. *)
Definition copy_outcome (os : OS) (dst : string) (src : Reader)
    : string * option error :=
  match write_fails os dst with
  | Some (n, err) => (substring 0 n (delivered src), Some err)
  | None => (delivered src, failure src)
  end.

Definition io_Copy (os : OS) (dst : string) (src : Reader) : M (option error) :=
  do_call (call_io_Copy dst src) ;;
  modify (set_files (insert dst (copy_outcome os dst src).1)) ;;
  ret (copy_outcome os dst src).2.

(** [Close()] of the open [*os.File]. *)
Definition File_Close (os : OS) (name : string) : M (option error) :=
  do_call (call_File_Close name) ;;
  ret (close_fails os name).

(** [os.Remove(name)].  The handler never looks at its error; the removal
    is taken to go through. *)
Definition os_Remove (name : string) : M unit :=
  do_call (call_os_Remove name) ;;
  modify (set_files (delete name)).

(** [gc.settingCaches.Store(k, v)] and [gc.settingCaches.Delete(k)]. *)
Definition settingCaches_Store (k v : string) : M unit :=
  modify (set_settingCaches (insert k v)).

Definition settingCaches_Delete (k : string) : M unit :=
  modify (set_settingCaches (delete k)).

(** [gc.startSetCacheOnce.Do(gc.startSetCache)]: the first call starts the
    background goroutine. *)
Definition startSetCacheOnce_Do : M unit :=
  fired <- gets startSetCacheOnce ;;
  if fired : bool then ret tt
  else modify (set_startSetCacheOnce true) ;; do_call call_go_startSetCache.

(** The operating system resolves a name from the working directory of
    the process, so that [caches/x], [./caches/x] and [/srv/caches/x] are
    one file in a process that runs in [/srv].  On a file system without
    symbolic links that is the path [filepath.Abs] computes.  [below wd
    root name] tells whether [name] is the file or directory [root], or
    lies in the tree under it; the empty name is the name of no file. *)
Definition below (wd root name : string) : bool :=
  if String.eqb root "" || String.eqb name "" then false
  else
    let r := filepath.Abs wd root in
    let n := filepath.Abs wd name in
    String.eqb n r
    || strings.HasPrefix n (if String.eqb r "/" then r else r ++ "/").

(** [func endsWithDot(path string) bool] of package [os]: whether the last
    element of [path] is [.]. *)
Definition endsWithDot (p : string) : bool :=
  String.eqb p "."
  || ((2 <=? String.length p)%nat
      && String.eqb (substring (String.length p - 2) 2 p) "/.").

(** What the operating system lets one [os.RemoveAll] do: remove the whole
    tree ([None]), or fail with an error after the files that [gone] marks
    have been removed. *)
Definition removal : Type := option (error * (string -> bool)).

(** [os.RemoveAll(name)], in a process whose working directory is [wd].
    It "removes path and any children it contains.  It removes everything
    it can but returns the first error it encounters.  If the path does
    not exist, RemoveAll returns nil."  It begins with
<<
    if path == "" { return nil }
    if endsWithDot(path) {
        return &PathError{Op: "RemoveAll", Path: path, Err: syscall.EINVAL}
    }
>>
    so that nothing is removed for these names. *)
Definition os_RemoveAll (wd : string) (outcome : removal) (name : string)
    : M (option error) :=
  do_call (call_os_RemoveAll name) ;;
  if String.eqb name "" then ret None
  else if endsWithDot name
  then ret (Some (PathError "RemoveAll" name (errorString "invalid argument")))
  else
    match outcome with
    | None =>
        modify (set_files (filter (fun kv => below wd name kv.1 = false))) ;;
        ret None
    | Some (err, gone) =>
        modify (set_files
                  (filter (fun kv => (below wd name kv.1 && gone kv.1) = false))) ;;
        ret (Some err)
    end.

(** ** The handler *)

(** The part of an [*air.Request] the handler reads. *)
Record Request : Type := {
  RawPath : string;
  Method : string
}.

(** What [hGoproxy] does with a request: hand it to the module proxy
    ([hhGoproxy.ServeHTTP(...)] then [return nil]), [return err], or
    [return res.Redirect(u.String())]. *)
Inductive handled : Type :=
  | ServeHTTP
  | ReturnError (err : error)
  | Redirect (url : string).

(** The reader [Get] returns. *)
Record goproxyCacheReader : Type := {
  ReadSeekCloser : Object;
  modTime : Z;
  checksum : bytes
}.

(** ** Concrete runs

    The values on which the properties are exercised below. *)

Module Scenario.

Definition bucket : string := "goproxy".

Definition zip : string := "example.com/mod/@v/v1.0.0.zip".

Definition request : Request :=
  {| RawPath := "/example.com/mod/@v/v1.0.0.zip"; Method := "GET" |}.

(** An answer for [isMinIOObjectNotExist]: the error responses of status
    404. *)
Definition notExist (err : error) : bool :=
  match err with
  | ErrorResponse 404 _ => true
  | _ => false
  end.

Definition NoSuchKey : error := ErrorResponse 404 "NoSuchKey".

Definition unavailable : error := ErrorResponse 503 "ServiceUnavailable".

Definition diskFull : error := errorString "no space left on device".

(** The tag of an object uploaded in one part, and of one uploaded in two. *)
Definition tag : string := "d41d8cd98f00b204e9800998ecf8427e".

Definition multipartTag : string := "d41d8cd98f00b204e9800998ecf8427e-2".

Definition info (etag : string) (size : Z) : ObjectInfo :=
  {| ETag := etag; Key := zip; LastModified := 1700000000; Size := size |}.

(** A client that answers every stat with [stat], every opening of an
    object with [get] and every upload with [put], and signs any URL. *)
Definition client (stat : ObjectInfo + error) (get : Object + error)
    (put : option error) : Client :=
  {| StatObject := fun _ _ => stat;
     GetObject := fun _ _ => get;
     PutObject := fun _ _ _ _ _ => put;
     Presign := fun method bucket key expires params =>
       inl {| URL_String := "https://kodo.example/" ++ bucket ++ "/" ++ key |} |}.

Definition archive : Object := {| body := "PK" |}.

(** A client that holds no credentials: it answers every stat with [stat]
    and signs nothing. *)
Definition anonymous : error :=
  errorString "Presigned operations are not supported for anonymous credentials".

Definition unsigning (stat : ObjectInfo + error) : Client :=
  {| StatObject := fun _ _ => stat;
     GetObject := fun _ _ => inl archive;
     PutObject := fun _ _ _ _ _ => None;
     Presign := fun _ _ _ _ _ => inr anonymous |}.

(** An operating system that fails nothing, and one whose writes fail
    after one byte. *)
Definition quiet : OS :=
  {| stat_fails := fun _ => None; create_fails := fun _ => None;
     open_fails := fun _ => None; fstat_fails := fun _ => None;
     write_fails := fun _ => None; close_fails := fun _ => None |}.

Definition fullDisk : OS :=
  {| stat_fails := fun _ => None; create_fails := fun _ => None;
     open_fails := fun _ => None; fstat_fails := fun _ => None;
     write_fails := fun _ => Some (1%nat, diskFull);
     close_fails := fun _ => None |}.

Definition content : Reader := {| delivered := "PK-first"; failure := None |}.

Definition content' : Reader := {| delivered := "PK-second"; failure := None |}.

Definition root : string := "/tmp/goproxy-china-local-caches42".

(** A cacher that has staged nothing, and one with one staged file. *)
Definition fresh : state :=
  {| files := ∅; localCacheRoot := root; settingCaches := ∅;
     startSetCacheOnce := false; log := [] |}.

Definition staged (file : string) : state :=
  {| files := {[ file := "PK-first"%string ]}; localCacheRoot := root;
     settingCaches := {[ zip := file ]};
     startSetCacheOnce := true; log := [] |}.

(** A removal that fails twice and then succeeds: the first attempt
    removes nothing, the second removes the files and fails on a
    directory. *)
Definition busyTwice (i : nat) : removal :=
  if (i <? 2)%nat
  then Some (errorString "directory not empty", fun _ => (i =? 1)%nat)
  else None.

(** A process that runs in [/srv/goproxy] with [local_cache_root] set to
    [./caches]: [os.MkdirTemp] returns a root that begins with [./], and
    [filepath.Join] stages the files under [caches/].  Next to the staged
    file lies a file that is no part of the staging tree. *)
Definition workdir : string := "/srv/goproxy".

Definition relativeRoot : string := "./caches/goproxy-china-local-caches42".

Definition config : string := "goproxy.toml".

Definition stagedUnder (dir file : string) : state :=
  {| files := {[ file := "PK-first"%string; config := "[goproxy]"%string ]};
     localCacheRoot := dir;
     settingCaches := {[ zip := file ]};
     startSetCacheOnce := true; log := [] |}.

(** Operating systems whose [os.Stat], [os.Create] and [Close] fail. *)
Definition denied : error := errorString "permission denied".

Definition noStat : OS :=
  {| stat_fails := fun _ => Some denied; create_fails := fun _ => None;
     open_fails := fun _ => None; fstat_fails := fun _ => None;
     write_fails := fun _ => None; close_fails := fun _ => None |}.

Definition noCreate : OS :=
  {| stat_fails := fun _ => None; create_fails := fun _ => Some denied;
     open_fails := fun _ => None; fstat_fails := fun _ => None;
     write_fails := fun _ => None; close_fails := fun _ => None |}.

Definition noClose : OS :=
  {| stat_fails := fun _ => None; create_fails := fun _ => None;
     open_fails := fun _ => None; fstat_fails := fun _ => None;
     write_fails := fun _ => None; close_fails := fun _ => Some diskFull |}.

Definition noFileStat : OS :=
  {| stat_fails := fun _ => None; create_fails := fun _ => None;
     open_fails := fun _ => None; fstat_fails := fun _ => Some denied;
     write_fails := fun _ => None; close_fails := fun _ => None |}.

(** A context cancelled from the third turn on, and one never cancelled. *)
Definition cancelledFrom2 (i : nat) (_ : option string) : bool := (2 <=? i)%nat.

Definition running (_ : option string) : bool := false.

Definition md5OfEmpty : bytes :=
  [212; 29; 140; 217; 143; 0; 178; 4; 233; 128; 9; 152; 236; 248; 66; 126].

End Scenario.

Section Handler.

(** The package-level variables of [handler]: the object-store client
    and its bucket, and the two configuration items of the redirection.
    [goproxyFetchTimeout] only bounds the request's context, which is not
    modelled. *)
Variable qiniuKodoClient : Client.
Variable qiniuKodoBucketName : string.
Variable goproxyAutoRedirect : bool.
Variable goproxyAutoRedirectMinSize : Z.

(** [isMinIOObjectNotExist] is declared in another file of the package:
    it reports whether an error of the client says that the object does
    not exist.  It is a parameter here. *)
Variable isMinIOObjectNotExist : error -> bool.

(** [func isAutoRedirectableGoproxyCache(name string) bool]. *)
Definition isAutoRedirectableGoproxyCache (name : string) : bool :=
  negb (strings.HasPrefix name "sumdb/")
  && strings.Contains name "/@v/"
  && String.eqb (path.Ext name) ".zip".

(** [func hGoproxy(req *air.Request, res *air.Response) error]. *)
Definition hGoproxy (req : Request) : handled :=
  let name := strings.TrimPrefix (path.Clean (RawPath req)) "/" in
  if negb goproxyAutoRedirect || negb (isAutoRedirectableGoproxyCache name)
  then ServeHTTP
  else
    match StatObject qiniuKodoClient qiniuKodoBucketName name with
    | inr err =>
        if isMinIOObjectNotExist err then ServeHTTP else ReturnError err
    | inl objectInfo =>
        if Size objectInfo <? goproxyAutoRedirectMinSize then ServeHTTP
        else
          match Presign qiniuKodoClient (Method req) qiniuKodoBucketName
                  (Key objectInfo) (7 * 24 * time.Hour)
                  [("response-cache-control"%string,
                    ["public, max-age=604800"%string])] with
          | inr err => ReturnError err
          | inl u => Redirect (URL_String u)
          end
    end.

(** [func (gc *goproxyCacher) Get(ctx, name) (io.ReadCloser, error)]. *)
Definition goproxyCacher_Get (name : string)
    : option goproxyCacheReader * option error :=
  match StatObject qiniuKodoClient qiniuKodoBucketName name with
  | inr err =>
      if isMinIOObjectNotExist err then (None, Some ErrNotExist)
      else (None, Some err)
  | inl objectInfo =>
      let '(checksum, _) := hex.DecodeString (ETag objectInfo) in
      let checksum :=
        if negb (List.length checksum =? md5.Size)%nat
        then md5.Sum (bytes_of_string (ETag objectInfo))
        else checksum in
      match GetObject qiniuKodoClient qiniuKodoBucketName (Key objectInfo) with
      | inr err => (None, Some err)
      | inl object =>
          (Some {| ReadSeekCloser := object;
                   modTime := LastModified objectInfo;
                   checksum := checksum |}, None)
      end
  end.

(** The name of the staged file of a cache name:
    [filepath.Join(gc.localCacheRoot, hex.EncodeToString(cacheNameChecksum[:]))]
    with [cacheNameChecksum := sha256.Sum256([]byte(name))]. *)
Definition localCacheFileName (root name : string) : string :=
  let cacheNameChecksum := sha256.Sum256 (bytes_of_string name) in
  filepath.Join root (hex.EncodeToString cacheNameChecksum).

(** [func (gc *goproxyCacher) Set(ctx, name, content) error]. *)
Definition goproxyCacher_Set (os : OS) (name : string) (content : Reader)
    : M (option error) :=
  startSetCacheOnce_Do ;;
  root <- gets localCacheRoot ;;
  let localCacheFile := localCacheFileName root name in
  do_call call_Lock ;;
  err <- os_Stat os localCacheFile ;;
  match err with
  | None => do_call call_Unlock ;; ret None
  | Some err =>
      if negb (errors_Is_ErrNotExist err)
      then do_call call_Unlock ;; ret (Some err)
      else
        err <- os_Create os localCacheFile ;;
        match err with
        | Some err => do_call call_Unlock ;; ret (Some err)
        | None =>
            do_call call_Unlock ;;
            err <- io_Copy os localCacheFile content ;;
            match err with
            | Some err => os_Remove localCacheFile ;; ret (Some err)
            | None =>
                err <- File_Close os localCacheFile ;;
                match err with
                | Some err => os_Remove localCacheFile ;; ret (Some err)
                | None =>
                    settingCaches_Store name localCacheFile ;;
                    ret None
                end
            end
        end
  end.

(** The content type the background loop gives an upload:
    [switch path.Ext(name)], with the empty string when no case applies. *)
Definition contentTypeOf (name : string) : string :=
  let ext := path.Ext name in
  if String.eqb ext ".info" then "application/json; charset=utf-8"
  else if String.eqb ext ".mod" then "text/plain; charset=utf-8"
  else if String.eqb ext ".zip" then "application/zip"
  else "".

(** The [minio.PutObjectOptions] of an upload of [size] bytes. *)
Definition putObjectOptions (name : string) (size : Z) : PutObjectOptions :=
  {| ContentType := contentTypeOf name;
     DisableMultipart := size <? Z.shiftl 256 20 |}.

(** The function [startSetCache] hands to [gc.settingCaches.Range]: one
    entry [k], [v] of the registry.  [cancelled] is whether
    [base.Context.Err() != nil] on entry; the result is whether the
    traversal goes on.  The deferred [localCacheFile.Close()] runs on
    every return that follows a successful [os.Open]. *)
Definition setCache (os : OS) (cancelled : bool) (k v : string) : M bool :=
  if cancelled then ret false
  else
    err <- os_Open os v ;;
    match err with
    | Some err =>
        (if errors_Is_ErrNotExist err then settingCaches_Delete k else ret tt) ;;
        ret true
    | None =>
        info <- File_Stat os v ;;
        match info with
        | inr _ => File_Close os v ;; ret true
        | inl size =>
            let name := k in
            do_call (call_StatObject qiniuKodoBucketName name) ;;
            match StatObject qiniuKodoClient qiniuKodoBucketName name with
            | inl _ =>
                settingCaches_Delete k ;;
                do_call call_Lock ;;
                os_Remove v ;;
                do_call call_Unlock ;;
                File_Close os v ;;
                ret true
            | inr err =>
                if negb (isMinIOObjectNotExist err)
                then File_Close os v ;; ret true
                else
                  let opts := putObjectOptions name size in
                  content <- gets (fun s => default ""%string (files s !! v)) ;;
                  do_call (call_PutObject qiniuKodoBucketName name content size opts) ;;
                  match PutObject qiniuKodoClient qiniuKodoBucketName name
                          content size opts with
                  | None =>
                      settingCaches_Delete k ;;
                      do_call call_Lock ;;
                      os_Remove v ;;
                      do_call call_Unlock
                  | Some _ => ret tt
                  end ;;
                  File_Close os v ;;
                  ret true
            end
        end
    end.

(** [gc.settingCaches.Range(f)] over the entries present when it starts;
    [f] deletes no key but its own. *)
Fixpoint Range (f : string -> string -> M bool)
    (entries : list (string * string)) : M unit :=
  match entries with
  | [] => ret tt
  | (k, v) :: rest =>
      continue <- f k v ;;
      if continue : bool then Range f rest else ret tt
  end.

(** One turn of the [for] loop of [startSetCache]; the result is whether
    the loop goes on.  [cancelled] answers [base.Context.Err() != nil]
    for the check after the sleep ([None]) and for the check at each
    entry ([Some k]). *)
Definition startSetCache_turn (os : OS) (cancelled : option string -> bool)
    : M bool :=
  do_call (call_Sleep time.Second) ;;
  if cancelled None then ret false
  else
    entries <- gets (fun s => map_to_list (settingCaches s)) ;;
    Range (fun k v => setCache os (cancelled (Some k)) k v) entries ;;
    ret true.

(** The shutdown job of [init]:
<<
    for i := 0; i < 60; i++ {
        time.Sleep(time.Second)
        err := os.RemoveAll(goproxyLocalCacheRoot)
        if err == nil { break }
    }
>>
    The process runs in the directory [wd]; [removals i] is what the
    operating system lets the attempt made with counter [i] do;
    [shutdownLoop n i] is the loop with [n] turns left. *)
Fixpoint shutdownLoop (wd : string) (removals : nat -> removal)
    (goproxyLocalCacheRoot : string) (n i : nat) : M unit :=
  match n with
  | O => ret tt
  | S n' =>
      do_call (call_Sleep time.Second) ;;
      err <- os_RemoveAll wd (removals i) goproxyLocalCacheRoot ;;
      match err with
      | None => ret tt
      | Some _ => shutdownLoop wd removals goproxyLocalCacheRoot n' (S i)
      end
  end.

Definition shutdownJob (wd : string) (removals : nat -> removal) : M unit :=
  goproxyLocalCacheRoot <- gets localCacheRoot ;;
  shutdownLoop wd removals goproxyLocalCacheRoot 60 0.

(** [func (gcr *goproxyCacheReader) ModTime() time.Time] and
    [func (gcr *goproxyCacheReader) Checksum() []byte]. *)
Definition goproxyCacheReader_ModTime (gcr : goproxyCacheReader) : Z :=
  modTime gcr.

Definition goproxyCacheReader_Checksum (gcr : goproxyCacheReader) : bytes :=
  checksum gcr.

(** [func (gc *goproxyCacher) startSetCache()]: the [for] loop of the
    goroutine, turn [i] first, with the operating system and the answers
    of [base.Context.Err() != nil] of each turn.  The loop has no bound:
    [fuel] bounds the turns looked at, and the result is whether the
    goroutine has returned within them. *)
Fixpoint startSetCache (fuel i : nat) (os : nat -> OS)
    (cancelled : nat -> option string -> bool) : M bool :=
  match fuel with
  | O => ret false
  | S fuel' =>
      continue <- startSetCache_turn (os i) (cancelled i) ;;
      if continue : bool then startSetCache fuel' (S i) os cancelled
      else ret true
  end.

(** Calls of [Set] made one after the other. *)
Fixpoint Sets (runs : list (OS * string * Reader)) : M (list (option error)) :=
  match runs with
  | [] => ret []
  | (os, name, content) :: rest =>
      err <- goproxyCacher_Set os name content ;;
      errs <- Sets rest ;;
      ret (err :: errs)
  end.

(** ** Notions used to state the properties *)

(** What [startSetCacheOnce.Do] adds to the log. *)
Definition once_calls (s : state) : list call :=
  if startSetCacheOnce s then [] else [call_go_startSetCache].

(** The uploads of a list of calls all follow a stat that answered
    "does not exist" and carry the options of [putObjectOptions]. *)
Definition upload_follows_not_exist (calls : list call) : Prop :=
  forall b n f sz o,
    call_PutObject b n f sz o ∈ calls ->
    b = qiniuKodoBucketName /\ o = putObjectOptions n sz
    /\ exists err,
        StatObject qiniuKodoClient qiniuKodoBucketName n = inr err
        /\ isMinIOObjectNotExist err = true.

(** The calls of [n] turns of the shutdown loop, and the files left by a
    removal that succeeded. *)
Definition attempts (root : string) (n : nat) : list call :=
  concat (replicate n [call_Sleep time.Second; call_os_RemoveAll root]).

Definition removed (wd root : string) (fs : gmap string string)
    : gmap string string :=
  filter (fun kv => below wd root kv.1 = false) fs.

(** The error that [os.RemoveAll(name)] returns when the operating system
    lets it do [outcome]. *)
Definition RemoveAll_error (outcome : removal) (name : string) : option error :=
  if String.eqb name "" then None
  else if endsWithDot name
  then Some (PathError "RemoveAll" name (errorString "invalid argument"))
  else fst <$> outcome.

(** A tag made of hexadecimal digits only, and a tag that is the
    hexadecimal form of an MD5 digest: 32 digits. *)
Fixpoint all_hex (s : string) : bool :=
  match s with
  | EmptyString => true
  | String c rest =>
      match hex.fromHexChar c with
      | Some _ => all_hex rest
      | None => false
      end
  end.

Definition hex_digest (tag : string) : bool :=
  (String.length tag =? 2 * md5.Size)%nat && all_hex tag.

(** The check that one byte survives encoding then decoding. *)
Definition byte_roundtrips (v : Z) : bool :=
  match hex.fromHexChar (hex.digit (Z.shiftr v 4)),
        hex.fromHexChar (hex.digit (Z.land v 15)) with
  | Some a, Some b =>
      (a =? Z.shiftr v 4) && (b =? Z.land v 15)
      && (Z.lor (Z.shiftl a 4) b =? v)
  | _, _ => false
  end.

(** The mutex along a list of calls: [Some held] when every [Lock] finds it
    free and every [Unlock] finds it held, [None] otherwise. *)
Fixpoint mutex_after (held : bool) (calls : list call) : option bool :=
  match calls with
  | [] => Some held
  | call_Lock :: rest => if held then None else mutex_after true rest
  | call_Unlock :: rest => if held then mutex_after false rest else None
  | _ :: rest => mutex_after held rest
  end.

(** The calls made while the mutex is held. *)
Fixpoint under_mutex (held : bool) (calls : list call) : list call :=
  match calls with
  | [] => []
  | call_Lock :: rest => under_mutex true rest
  | call_Unlock :: rest => under_mutex false rest
  | c :: rest =>
      if held then c :: under_mutex held rest else under_mutex held rest
  end.

(** How many times a list of calls starts the background goroutine. *)
Fixpoint starts (calls : list call) : nat :=
  match calls with
  | [] => O
  | call_go_startSetCache :: rest => S (starts rest)
  | _ :: rest => starts rest
  end.

(** Every entry of the registry names a file that is there, and no two
    keys share a file. *)
Definition registry_backed (s : state) : Prop :=
  forall k v, settingCaches s !! k = Some v -> is_Some (files s !! v).

Definition registry_injective (reg : gmap string string) : Prop :=
  forall k k' v, reg !! k = Some v -> reg !! k' = Some v -> k = k'.

(** A path element without [.] and without [/]. *)
Fixpoint plain (s : string) : bool :=
  match s with
  | EmptyString => true
  | String c rest =>
      negb (Ascii.eqb c "/") && negb (Ascii.eqb c ".") && plain rest
  end.

(** ** Notions used for [path.Clean]

    [Clean] is followed turn by turn: each turn of its loop consumes one
    piece of the path and changes the write buffer by it. *)

(** The loop of [Clean] with the final [dotdot] next to the buffer. *)
Fixpoint cleanRun (fuel : nat) (rooted : bool) (rest : string)
    (out : list ascii) (dotdot : nat) : list ascii * nat :=
  match fuel with
  | O => (out, dotdot)
  | S fuel' =>
      match rest with
      | EmptyString => (out, dotdot)
      | String c rest1 =>
          let '(rest', out', dotdot') := path.cleanStep rooted c rest1 out dotdot in
          cleanRun fuel' rooted rest' out' dotdot'
      end
  end.

(** The loop run over the whole of [rest]. *)
Definition cleaned (rooted : bool) (rest : string) (st : list ascii * nat)
    : list ascii * nat :=
  cleanRun (String.length rest) rooted rest st.1 st.2.

(** A string without [/]; a path element that [Clean] keeps: it is not
    empty, has no [/] and is neither [.] nor [..]. *)
Fixpoint noslash (e : string) : bool :=
  match e with
  | EmptyString => true
  | String c rest => negb (Ascii.eqb c "/") && noslash rest
  end.

Definition pathElement (e : string) : bool :=
  noslash e && negb (String.eqb e "") && negb (String.eqb e ".")
  && negb (String.eqb e "..").

(** The bytes of an element as the buffer holds them, and the path a
    buffer stands for. *)
Definition reversed (e : string) : list ascii := rev (list_ascii_of_string e).

Definition written (out : list ascii) : string := string_of_list_ascii (rev out).

(** What [Clean] does to its buffer for an element and for [..]. *)
Definition separated (rooted : bool) (out : list ascii) : list ascii :=
  if (rooted && negb (List.length out =? 1)%nat)
     || (negb rooted && negb (List.length out =? 0)%nat)
  then "/"%char :: out else out.

Definition pushed (rooted : bool) (e : string) (st : list ascii * nat)
    : list ascii * nat :=
  (reversed e ++ separated rooted st.1, st.2).

Definition backtracked (rooted : bool) (st : list ascii * nat)
    : list ascii * nat :=
  if (st.2 <? List.length st.1)%nat
  then (path.unwind st.1 (List.length st.1 - 1) st.2, st.2)
  else if negb rooted
  then
    let out2 :=
      "."%char :: "."%char
      :: (if (0 <? List.length st.1)%nat then "/"%char :: st.1 else st.1) in
    (out2, List.length out2)
  else st.

(** The buffers [Clean] builds: a floor that [..] does not go below, the
    [/] of a rooted path or the leading [..] elements of a relative one,
    and elements pushed on it. *)
Inductive built (rooted : bool) : list ascii -> nat -> Prop :=
  | built_floor (out : list ascii) (dotdot : nat) :
      (if rooted then out = ["/"%char]
       else out = [] \/ last out = Some "."%char) ->
      dotdot = List.length out ->
      built rooted out dotdot
  | built_push (out : list ascii) (dotdot : nat) (e : string) :
      built rooted out dotdot ->
      pathElement e = true ->
      built rooted (reversed e ++ separated rooted out) dotdot.

(** The pieces one turn of the loop of [Clean] consumes. *)
Inductive piece : Type :=
  | Slash
  | Dot
  | DotDot
  | Elem (e : string).

Definition act (rooted : bool) (pc : piece) (st : list ascii * nat)
    : list ascii * nat :=
  match pc with
  | Slash | Dot => st
  | DotDot => backtracked rooted st
  | Elem e => pushed rooted e st
  end.

(** The buffer [Clean] starts a rooted path with. *)
Definition rootedFloor : list ascii * nat := (["/"%char], 1%nat).

(** A client that finds the object of a key, or does not find it and
    accepts its upload. *)
Definition settles (k : string) : Prop :=
  (exists objectInfo,
      StatObject qiniuKodoClient qiniuKodoBucketName k = inl objectInfo)
  \/ (exists err,
      StatObject qiniuKodoClient qiniuKodoBucketName k = inr err
      /\ isMinIOObjectNotExist err = true
      /\ forall content size opts,
          PutObject qiniuKodoClient qiniuKodoBucketName k content size opts
          = None).

(** Symbolic execution of the operations, and the bookkeeping of logs. *)
Ltac run :=
  cbv beta iota zeta delta
    [goproxyCacher_Set setCache startSetCacheOnce_Do
     os_Stat os_Create os_Open os_Remove File_Stat File_Close io_Copy
     settingCaches_Store settingCaches_Delete
     bind ret gets modify do_call
     set_files set_settingCaches set_startSetCacheOnce add_log
     files localCacheRoot settingCaches startSetCacheOnce log].

Ltac close_log :=
  first [ exists []; split; [by rewrite app_nil_r |]
        | rewrite <- ?app_assoc; eexists; split; [reflexivity |] ].

Ltac not_in_log H :=
  repeat (apply elem_of_cons in H as [H | H]; [discriminate H |]);
  try (apply elem_of_nil in H; contradiction).

(** * Properties *)

(** ** Strings *)

Lemma substring_0_length_app (p r : string) :
  substring 0 (String.length p) (p ++ r) = p.
Proof. induction p as [|c p IH]; simpl; [by destruct r | by rewrite IH]. Qed.

Lemma length_app_string (p r : string) :
  String.length (p ++ r) = (String.length p + String.length r)%nat.
Proof. induction p as [|c p IH]; simpl; [done | by rewrite IH]. Qed.

Lemma substring_prefix_inv (p s : string) :
  substring 0 (String.length p) s = p -> exists r, s = (p ++ r)%string.
Proof.
  revert s. induction p as [|c p IH]; intros s H.
  - by exists s.
  - destruct s as [|c' s]; simpl in H; [discriminate |].
    injection H as -> H. destruct (IH _ H) as [r ->]. by exists r.
Qed.

Lemma HasPrefix_spec (s p : string) :
  strings.HasPrefix s p = true <-> exists r, s = (p ++ r)%string.
Proof.
  unfold strings.HasPrefix. rewrite andb_true_iff, Nat.leb_le, String.eqb_eq.
  split.
  - intros [_ H]. by apply substring_prefix_inv.
  - intros [r ->]. rewrite length_app_string, substring_0_length_app.
    split; [lia | done].
Qed.

Lemma HasPrefix_empty (p : string) :
  strings.HasPrefix "" p = true -> p = ""%string.
Proof.
  rewrite HasPrefix_spec. intros [r H]. by destruct p.
Qed.

Lemma IndexFrom_spec (s sub : string) (i : Z) :
  0 <= i ->
  (0 <=? strings.IndexFrom i s sub) = true
  <-> exists a b, s = (a ++ sub ++ b)%string.
Proof.
  revert i. induction s as [|c s IH]; intros i Hi; simpl.
  - destruct (strings.HasPrefix "" sub) eqn:E.
    + apply HasPrefix_empty in E as ->. split; [| intros _; by apply Z.leb_le].
      intros _. by exists ""%string, ""%string.
    + split; [done |]. intros (a & b & H).
      destruct a; [| discriminate]. destruct sub; [| discriminate].
      discriminate.
  - destruct (strings.HasPrefix (String c s) sub) eqn:E.
    + split; [| intros _; by apply Z.leb_le].
      intros _. apply HasPrefix_spec in E as [r ->]. by exists ""%string, r.
    + rewrite IH by lia. split.
      * intros (a & b & ->). by exists (String c a), b.
      * intros (a & b & H). destruct a as [|c' a]; simpl in H.
        -- assert (strings.HasPrefix (String c s) sub = true) as E'
             by (apply HasPrefix_spec; eauto).
           congruence.
        -- injection H as -> ->. eauto.
Qed.

Lemma Contains_spec (s sub : string) :
  strings.Contains s sub = true <-> exists a b, s = (a ++ sub ++ b)%string.
Proof. unfold strings.Contains, strings.Index. by apply IndexFrom_spec. Qed.

Lemma app_String (c : ascii) (a b : string) :
  (String c a ++ b)%string = String c (a ++ b).
Proof. reflexivity. Qed.

Lemma substring_0_length (s : string) : substring 0 (String.length s) s = s.
Proof. induction s as [|c s IH]; simpl; [done | by rewrite IH]. Qed.

Lemma substring_split (s : string) (n : nat) :
  s = (substring 0 n s ++ substring n (String.length s - n) s)%string.
Proof.
  revert n. induction s as [|c s IH]; intros [|n]; simpl; try done.
  - by rewrite substring_0_length.
  - rewrite app_String. f_equal. apply IH.
Qed.

Lemma get_app_r (q r : string) (k : nat) :
  String.get (String.length q + k) (q ++ r) = String.get k r.
Proof. induction q as [|c q IH]; simpl; done. Qed.

Lemma substring_app_r (q r : string) (m : nat) :
  substring (String.length q) m (q ++ r) = substring 0 m r.
Proof. induction q as [|c q IH]; simpl; done. Qed.

(** The extension is empty or a suffix of the path. *)
Lemma ExtFrom_suffix (p : string) (n : nat) :
  path.ExtFrom p n = ""%string \/ exists q, p = (q ++ path.ExtFrom p n)%string.
Proof.
  induction n as [|i IH]; simpl; [by left |].
  destruct (String.get i p) as [c|]; [| by left].
  destruct (Ascii.eqb c "/"); [by left |].
  destruct (Ascii.eqb c "."); [| done].
  right. eexists. apply substring_split.
Qed.

Lemma Ext_zip (name : string) :
  path.Ext name = ".zip"%string <-> exists q, name = (q ++ ".zip")%string.
Proof.
  split.
  - intros H. destruct (ExtFrom_suffix name (String.length name)) as [E|[q E]];
      fold (path.Ext name) in E; rewrite H in E; [discriminate | eauto].
  - intros [q ->]. unfold path.Ext. rewrite length_app_string.
    replace (String.length q + String.length ".zip")%nat
      with (S (String.length q + 3)) by (simpl; lia).
    cbn [path.ExtFrom]. rewrite get_app_r. cbn [String.get Ascii.eqb Bool.eqb].
    replace (String.length q + 3)%nat with (S (String.length q + 2)) by lia.
    cbn [path.ExtFrom]. rewrite get_app_r. cbn [String.get Ascii.eqb Bool.eqb].
    replace (String.length q + 2)%nat with (S (String.length q + 1)) by lia.
    cbn [path.ExtFrom]. rewrite get_app_r. cbn [String.get Ascii.eqb Bool.eqb].
    replace (String.length q + 1)%nat with (S (String.length q + 0)) by lia.
    cbn [path.ExtFrom]. rewrite get_app_r. cbn [String.get Ascii.eqb Bool.eqb].
    rewrite Nat.add_0_r, length_app_string, substring_app_r.
    replace (String.length q + String.length ".zip" - String.length q)%nat
      with 4%nat by (simpl; lia).
    reflexivity.
Qed.

(** The fuel of [path.Clean] is enough: every turn of its loop shortens
    what is left of the path, so more fuel changes nothing. *)
Lemma copyElem_length (rest : string) (out : list ascii) :
  (String.length (path.copyElem rest out).1 <= String.length rest)%nat.
Proof.
  revert out. induction rest as [|c rest IH]; intros out; cbn [path.copyElem].
  - done.
  - destruct (Ascii.eqb c "/"); [done |].
    specialize (IH (c :: out)). simpl. lia.
Qed.

Lemma cleanStep_length (rooted : bool) (c : ascii) (rest1 : string)
    (out : list ascii) (dotdot : nat) :
  (String.length (path.cleanStep rooted c rest1 out dotdot).1.1
   <= String.length rest1)%nat.
Proof.
  unfold path.cleanStep. cbn [path.copyElem].
  destruct (Ascii.eqb c "/"); [done |].
  match goal with
  | |- context [path.copyElem rest1 ?o] =>
      pose proof (copyElem_length rest1 o) as Hcopy;
      destruct (path.copyElem rest1 o) as [rest' out2]
  end.
  cbn [fst] in Hcopy.
  destruct (Ascii.eqb c "." && path.startsElemEnd rest1); [done |].
  destruct rest1 as [|c1 rest2]; [done |].
  destruct (Ascii.eqb c "." && Ascii.eqb c1 "." && path.startsElemEnd rest2);
    [| done].
  destruct (dotdot <? List.length out)%nat; [simpl; lia |].
  destruct (negb rooted); simpl; lia.
Qed.

Lemma cleanLoop_fuel (fuel k : nat) (rooted : bool) (rest : string)
    (out : list ascii) (dotdot : nat) :
  (String.length rest <= fuel)%nat ->
  path.cleanLoop (fuel + k) rooted rest out dotdot
  = path.cleanLoop fuel rooted rest out dotdot.
Proof.
  revert rest out dotdot. induction fuel as [|fuel IH]; intros rest out dotdot Hlen.
  - destruct rest; [by destruct k | simpl in Hlen; lia].
  - destruct rest as [|c rest1]; [done |]. cbn [path.cleanLoop Nat.add].
    pose proof (cleanStep_length rooted c rest1 out dotdot) as Hstep.
    destruct (path.cleanStep rooted c rest1 out dotdot) as [[rest' out'] dotdot'].
    cbn [fst] in Hstep. simpl in Hlen. apply IH. lia.
Qed.

(** ** The redirect policy *)

(** C5. [isAutoRedirectableGoproxyCache name] is true exactly when [name]
    does not start with [sumdb/], contains [/@v/] and has the path
    extension [.zip] (which is to say that it ends in [.zip]); it is true
    for [example.com/mod/@v/v1.0.0.zip] and false for
    [sumdb/example.com/lookup/mod@v1.0.0] and for
    [example.com/mod/@v/v1.0.0.info]. *)
Theorem isAutoRedirectableGoproxyCache_spec :
  (forall name : string,
      isAutoRedirectableGoproxyCache name = true
      <-> ~ (exists rest, name = ("sumdb/" ++ rest)%string)
          /\ (exists a b, name = (a ++ "/@v/" ++ b)%string)
          /\ path.Ext name = ".zip"%string)
  /\ (forall name : string,
      path.Ext name = ".zip"%string <-> exists q, name = (q ++ ".zip")%string)
  /\ isAutoRedirectableGoproxyCache "example.com/mod/@v/v1.0.0.zip" = true
  /\ isAutoRedirectableGoproxyCache "sumdb/example.com/lookup/mod@v1.0.0" = false
  /\ isAutoRedirectableGoproxyCache "example.com/mod/@v/v1.0.0.info" = false.
Proof.
  split; [| split; [exact Ext_zip | by vm_compute]].
  intros name. unfold isAutoRedirectableGoproxyCache.
  rewrite !andb_true_iff, negb_true_iff, Contains_spec, String.eqb_eq.
  rewrite <- HasPrefix_spec, not_true_iff_false. tauto.
Qed.

(** C4, as the code has it.  For an eligible name, with the redirection
    enabled and the object found: below the minimum size the request goes
    to the proxy; from the minimum size on, the handler pre-signs the
    object's key for the request's method with a validity of
    [7*24*time.Hour] (604800 seconds) and the query parameter
    [response-cache-control] set to [public, max-age=604800].  When the
    pre-signing succeeds the handler redirects to the resulting URL; when
    it fails the handler returns its error and redirects nowhere. *)
Theorem hGoproxy_redirect_threshold (req : Request) (objectInfo : ObjectInfo) :
  let name := strings.TrimPrefix (path.Clean (RawPath req)) "/" in
  goproxyAutoRedirect = true ->
  isAutoRedirectableGoproxyCache name = true ->
  StatObject qiniuKodoClient qiniuKodoBucketName name = inl objectInfo ->
  (Size objectInfo < goproxyAutoRedirectMinSize -> hGoproxy req = ServeHTTP)
  /\ (goproxyAutoRedirectMinSize <= Size objectInfo ->
      hGoproxy req =
        match Presign qiniuKodoClient (Method req) qiniuKodoBucketName
                (Key objectInfo) (7 * 24 * time.Hour)
                [("response-cache-control"%string,
                  ["public, max-age=604800"%string])] with
        | inl u => Redirect (URL_String u)
        | inr err => ReturnError err
        end)
  /\ 7 * 24 * time.Hour = 604800 * time.Second.
Proof.
  intros name Hon Hname Hstat. unfold hGoproxy. fold name.
  rewrite Hon, Hname, Hstat. cbn [negb orb].
  split; [| split; [| reflexivity]]; intros Hsize.
  - apply Z.ltb_lt in Hsize. by rewrite Hsize.
  - apply Z.ltb_ge in Hsize. by rewrite Hsize.
Qed.

(** C10. For an eligible name with the redirection enabled, an error of the
    stat that is not "object does not exist" is returned as it is: the
    request is neither proxied nor redirected.  Only the not-exist error
    falls back to the proxy. *)
Theorem hGoproxy_stat_error (req : Request) (err : error) :
  let name := strings.TrimPrefix (path.Clean (RawPath req)) "/" in
  goproxyAutoRedirect = true ->
  isAutoRedirectableGoproxyCache name = true ->
  StatObject qiniuKodoClient qiniuKodoBucketName name = inr err ->
  (isMinIOObjectNotExist err = false -> hGoproxy req = ReturnError err)
  /\ (isMinIOObjectNotExist err = true -> hGoproxy req = ServeHTTP).
Proof.
  intros name Hon Hname Hstat. unfold hGoproxy. fold name.
  rewrite Hon, Hname, Hstat. cbn [negb orb].
  split; intros ->; reflexivity.
Qed.

(** ** The read path *)

(** C6. [Get] answers a stat that says "object does not exist" with
    [fs.ErrNotExist] and no stream; any other error of the stat, and any
    error of opening the object, is returned as it is, with no stream. *)
Theorem Get_errors (name : string) :
  (forall err,
      StatObject qiniuKodoClient qiniuKodoBucketName name = inr err ->
      isMinIOObjectNotExist err = true ->
      goproxyCacher_Get name = (None, Some ErrNotExist))
  /\ (forall err,
      StatObject qiniuKodoClient qiniuKodoBucketName name = inr err ->
      isMinIOObjectNotExist err = false ->
      goproxyCacher_Get name = (None, Some err))
  /\ (forall objectInfo err,
      StatObject qiniuKodoClient qiniuKodoBucketName name = inl objectInfo ->
      GetObject qiniuKodoClient qiniuKodoBucketName (Key objectInfo) = inr err ->
      goproxyCacher_Get name = (None, Some err)).
Proof.
  unfold goproxyCacher_Get. repeat split.
  - intros err -> ->. reflexivity.
  - intros err -> ->. reflexivity.
  - intros objectInfo err -> Hget.
    destruct (hex.DecodeString (ETag objectInfo)) as [checksum e].
    by rewrite Hget.
Qed.

(** ** The write path *)

Lemma Set_staged (os : OS) (name : string) (content : Reader) (s : state) :
  let p := localCacheFileName (localCacheRoot s) name in
  stat_error os (files s) p = None ->
  exists s',
    goproxyCacher_Set os name content s = (None, s')
    /\ files s' = files s
    /\ settingCaches s' = settingCaches s
    /\ localCacheRoot s' = localCacheRoot s
    /\ log s' = log s ++ once_calls s ++ [call_Lock; call_os_Stat p; call_Unlock].
Proof.
  intros p Hstat. unfold once_calls. destruct s as [fs root reg once lg].
  cbn [files localCacheRoot startSetCacheOnce log settingCaches] in *.
  destruct once; run; fold p; rewrite Hstat; eexists; (split; [reflexivity |]);
    cbn [files settingCaches localCacheRoot log];
    rewrite <- ?app_assoc; auto.
Qed.

Lemma stat_error_absent (os : OS) (fs : gmap string string) (p : string) :
  fs !! p = None -> exists err, stat_error os fs p = Some err.
Proof.
  intros H. unfold stat_error. rewrite H. destruct (stat_fails os p); eauto.
Qed.

Lemma stat_error_present (os : OS) (fs : gmap string string) (p : string) :
  is_Some (fs !! p) -> stat_fails os p = None -> stat_error os fs p = None.
Proof. intros [c H] Hf. unfold stat_error. by rewrite Hf, H. Qed.

(** A [Set] that returns [nil] for a name that was not staged has created
    the staged file with the whole content and registered it. *)
Lemma Set_fresh_success (os : OS) (name : string) (content : Reader) (s s1 : state) :
  let p := localCacheFileName (localCacheRoot s) name in
  files s !! p = None ->
  goproxyCacher_Set os name content s = (None, s1) ->
  files s1 = <[p := delivered content]> (files s)
  /\ settingCaches s1 = <[name := p]> (settingCaches s)
  /\ localCacheRoot s1 = localCacheRoot s
  /\ startSetCacheOnce s1 = true
  /\ copy_outcome os p content = (delivered content, None)
  /\ close_fails os p = None.
Proof.
  intros p Habs Hset. destruct (stat_error_absent os _ _ Habs) as [err0 Hstat].
  destruct s as [fs root reg once lg].
  cbn [files localCacheRoot startSetCacheOnce log settingCaches] in *.
  revert Hset.
  destruct once; run; fold p; rewrite Hstat; unfold copy_outcome;
    (destruct (errors_Is_ErrNotExist err0); run; [| intros [=]]);
    (destruct (create_fails os p); run; [intros [=] |]);
    (destruct (write_fails os p) as [[n e]|]; run; cbn [fst snd]; [intros [=] |]);
    (destruct (failure content); run; [intros [=] |]);
    (destruct (close_fails os p); run; [intros [=] |]);
    intros [= <-]; cbn; by rewrite insert_insert_eq.
Qed.

(** C1. When the staged file of a name is already there (and [os.Stat] sees
    it), [Set] returns [nil] after the calls [Lock], [os.Stat], [Unlock]
    only: the content stream is not read, no file is created, and neither
    the files nor the registry change.  Hence after a [Set] that succeeded
    for a name that was not staged, a second [Set] of the same name returns
    [nil] and leaves the one staged file (holding the first content) and
    the one registry entry of the first. *)
Theorem Set_idempotent :
  (forall (os : OS) (name : string) (content : Reader) (s : state),
      let p := localCacheFileName (localCacheRoot s) name in
      is_Some (files s !! p) ->
      stat_fails os p = None ->
      exists s',
        goproxyCacher_Set os name content s = (None, s')
        /\ files s' = files s
        /\ settingCaches s' = settingCaches s
        /\ log s' = log s ++ once_calls s
                          ++ [call_Lock; call_os_Stat p; call_Unlock])
  /\ (forall (os1 os2 : OS) (name : string) (content1 content2 : Reader)
             (s s1 : state),
      let p := localCacheFileName (localCacheRoot s) name in
      files s !! p = None ->
      goproxyCacher_Set os1 name content1 s = (None, s1) ->
      stat_fails os2 p = None ->
      exists s2,
        goproxyCacher_Set os2 name content2 s1 = (None, s2)
        /\ files s2 = <[p := delivered content1]> (files s)
        /\ settingCaches s2 = <[name := p]> (settingCaches s)
        /\ size (files s2) = S (size (files s))
        /\ log s2 = log s1 ++ [call_Lock; call_os_Stat p; call_Unlock]).
Proof.
  split.
  - intros os name content s p Hsome Hfault.
    destruct (Set_staged os name content s) as (s' & H1 & H2 & H3 & _ & H4);
      [by apply stat_error_present | eauto].
  - intros os1 os2 name content1 content2 s s1 p Habs Hset Hfault.
    destruct (Set_fresh_success os1 name content1 s s1 Habs Hset)
      as (Hf & Hr & Hroot & Honce & _).
    fold p in Hf, Hr.
    destruct (Set_staged os2 name content2 s1) as (s2 & H1 & H2 & H3 & _ & H4).
    { rewrite Hroot. fold p. apply stat_error_present; [| done].
      rewrite Hf, lookup_insert_eq. eauto. }
    exists s2. rewrite H2, H3, Hf, Hr. repeat split; [done | |].
    + by apply map_size_insert_None.
    + rewrite H4, Hroot. unfold once_calls. by rewrite Honce.
Qed.


(** ** The background loop *)

(** What one entry costs when the stat says that the object is there. *)
Lemma setCache_present (os : OS) (k v : string) (s : state) (objectInfo : ObjectInfo) :
  open_error os (files s) v = None ->
  fstat_fails os v = None ->
  StatObject qiniuKodoClient qiniuKodoBucketName k = inl objectInfo ->
  exists s',
    setCache os false k v s = (true, s')
    /\ settingCaches s' = delete k (settingCaches s)
    /\ files s' = delete v (files s)
    /\ log s' = log s ++ [call_os_Open v; call_File_Stat v;
                          call_StatObject qiniuKodoBucketName k;
                          call_Lock; call_os_Remove v; call_Unlock;
                          call_File_Close v].
Proof.
  intros Hopen Hfstat Hstat. destruct s as [fs root reg once lg].
  cbn [files localCacheRoot startSetCacheOnce log settingCaches] in *.
  run. rewrite Hopen, Hfstat, Hstat. run.
  eexists. split; [reflexivity |]. cbn. by rewrite <- !app_assoc.
Qed.

(** What one entry costs when the stat says that the object does not
    exist: the upload, then the clean-up if the upload succeeded. *)
Lemma setCache_upload (os : OS) (k v : string) (s : state) (err : error)
    (content : string) :
  open_error os (files s) v = None ->
  fstat_fails os v = None ->
  files s !! v = Some content ->
  StatObject qiniuKodoClient qiniuKodoBucketName k = inr err ->
  isMinIOObjectNotExist err = true ->
  let size := Z.of_nat (String.length content) in
  let uploaded :=
    PutObject qiniuKodoClient qiniuKodoBucketName k content size
      (putObjectOptions k size) in
  exists s',
    setCache os false k v s = (true, s')
    /\ settingCaches s'
       = match uploaded with
         | Some _ => settingCaches s
         | None => delete k (settingCaches s)
         end
    /\ files s' = match uploaded with
                  | Some _ => files s
                  | None => delete v (files s)
                  end
    /\ log s' = log s ++ [call_os_Open v; call_File_Stat v;
                          call_StatObject qiniuKodoBucketName k;
                          call_PutObject qiniuKodoBucketName k content size
                            (putObjectOptions k size)]
                      ++ match uploaded with
                         | Some _ => []
                         | None => [call_Lock; call_os_Remove v; call_Unlock]
                         end
                      ++ [call_File_Close v].
Proof.
  intros Hopen Hfstat Hfile Hstat Hne size uploaded.
  destruct s as [fs root reg once lg].
  cbn [files localCacheRoot startSetCacheOnce log settingCaches] in *.
  run. rewrite Hopen, Hfstat, Hstat, Hne. cbn [negb]. run. rewrite !Hfile.
  cbn [from_option id]. fold size. fold uploaded.
  destruct uploaded; run; eexists; (split; [reflexivity |]); cbn;
    by rewrite <- !app_assoc.
Qed.

(** Every upload an entry makes follows a stat that said "does not
    exist", is for the key of the entry, and carries the options of
    [putObjectOptions]. *)
Lemma setCache_calls (os : OS) (cancelled : bool) (k v : string) (s : state) :
  exists calls,
    log (setCache os cancelled k v s).2 = log s ++ calls
    /\ forall b n f sz o,
        call_PutObject b n f sz o ∈ calls ->
        b = qiniuKodoBucketName /\ n = k /\ o = putObjectOptions k sz
        /\ exists err,
            StatObject qiniuKodoClient qiniuKodoBucketName k = inr err
            /\ isMinIOObjectNotExist err = true.
Proof.
  destruct s as [fs root reg once lg].
  cbn [files localCacheRoot startSetCacheOnce log settingCaches] in *.
  destruct cancelled; run; cbn [snd log].
  { close_log. intros * H. not_in_log H. }
  destruct (open_error os fs v) as [e|]; run.
  { destruct (errors_Is_ErrNotExist e); run; cbn [snd log];
      close_log; intros * H; not_in_log H. }
  destruct (fstat_fails os v); run; cbn [snd log].
  { close_log. intros * H. not_in_log H. }
  destruct (StatObject qiniuKodoClient qiniuKodoBucketName k) as [info|err]; run;
    cbn [snd log].
  { close_log. intros * H. not_in_log H. }
  destruct (isMinIOObjectNotExist err) eqn:Hne; cbn [negb]; run; cbn [snd log].
  2: { close_log. intros * H. not_in_log H. }
  match goal with
  | |- context [PutObject ?c ?b ?n ?f ?sz ?o] => destruct (PutObject c b n f sz o)
  end; run; cbn [snd log]; close_log; intros * H;
    repeat (apply elem_of_cons in H as [H | H]; [try discriminate H |]);
    try (apply elem_of_nil in H; contradiction);
    injection H as -> -> -> -> ->; eauto 10.
Qed.

Lemma Range_calls (os : OS) (cancelled : option string -> bool)
    (entries : list (string * string)) (s : state) :
  exists calls,
    log (Range (fun k v => setCache os (cancelled (Some k)) k v) entries s).2
    = log s ++ calls
    /\ upload_follows_not_exist calls.
Proof.
  unfold upload_follows_not_exist.
  revert s. induction entries as [|[k v] rest IH]; intros s.
  - exists []. split; [by rewrite app_nil_r |]. intros * H. not_in_log H.
  - cbn [Range]. unfold bind at 1.
    destruct (setCache_calls os (cancelled (Some k)) k v s) as (c1 & H1 & P1).
    destruct (setCache os (cancelled (Some k)) k v s) as [continue s1].
    cbn [snd] in H1. destruct continue.
    + destruct (IH s1) as (c2 & H2 & P2). exists (c1 ++ c2).
      split; [by rewrite H2, H1, app_assoc |].
      intros * H. apply elem_of_app in H as [H | H]; [| by apply (P2 _ _ _ _ _ H)].
      destruct (P1 _ _ _ _ _ H) as (-> & -> & -> & Herr). done.
    + exists c1. split; [done |].
      intros * H. destruct (P1 _ _ _ _ _ H) as (-> & -> & -> & Herr). done.
Qed.

Lemma startSetCache_turn_calls (os : OS) (cancelled : option string -> bool)
    (s : state) :
  exists calls,
    log (startSetCache_turn os cancelled s).2 = log s ++ calls
    /\ upload_follows_not_exist calls.
Proof.
  pose proof (Range_calls os cancelled) as HRange.
  unfold upload_follows_not_exist in *.
  unfold startSetCache_turn, do_call, modify, gets, ret. unfold bind at 1.
  destruct (cancelled None).
  - exists [call_Sleep time.Second]. split; [done |]. intros * H. not_in_log H.
  - unfold bind at 1. unfold bind at 1.
    match goal with
    | |- context [Range ?f ?l ?s1] =>
        destruct (HRange l s1) as (c & H & P);
        destruct (Range f l s1) as [[] s2]
    end.
    cbn [snd log add_log] in *. exists (call_Sleep time.Second :: c).
    split; [by rewrite H, <- app_assoc |].
    intros * H'. apply elem_of_cons in H' as [H' | H'];
      [discriminate | by apply (P _ _ _ _ _ H')].
Qed.

(** C3. When the stat of an entry's key finds the object, the entry is
    taken out of the registry and its staged file is removed, and the calls
    made are [os.Open], [Stat], [StatObject], [Lock], [os.Remove],
    [Unlock], [Close]: no [PutObject].  In every entry step and in every
    whole turn of the loop, each [PutObject] that is made is for a key whose
    stat answered "object does not exist". *)
Theorem setCache_never_overwrites :
  (forall (os : OS) (k v : string) (s : state) (objectInfo : ObjectInfo),
      open_error os (files s) v = None ->
      fstat_fails os v = None ->
      StatObject qiniuKodoClient qiniuKodoBucketName k = inl objectInfo ->
      exists s',
        setCache os false k v s = (true, s')
        /\ settingCaches s' = delete k (settingCaches s)
        /\ files s' = delete v (files s)
        /\ log s' = log s ++ [call_os_Open v; call_File_Stat v;
                              call_StatObject qiniuKodoBucketName k;
                              call_Lock; call_os_Remove v; call_Unlock;
                              call_File_Close v])
  /\ (forall (os : OS) (cancelled : bool) (k v : string) (s : state),
      exists calls,
        log (setCache os cancelled k v s).2 = log s ++ calls
        /\ forall b n f sz o,
            call_PutObject b n f sz o ∈ calls ->
            n = k
            /\ exists err,
                StatObject qiniuKodoClient qiniuKodoBucketName k = inr err
                /\ isMinIOObjectNotExist err = true)
  /\ (forall (os : OS) (cancelled : option string -> bool) (s : state),
      exists calls,
        log (startSetCache_turn os cancelled s).2 = log s ++ calls
        /\ forall b n f sz o,
            call_PutObject b n f sz o ∈ calls ->
            exists err,
              StatObject qiniuKodoClient qiniuKodoBucketName n = inr err
              /\ isMinIOObjectNotExist err = true).
Proof.
  split; [| split].
  - intros os k v s objectInfo Hopen Hfstat Hstat.
    by apply (setCache_present os k v s objectInfo).
  - intros os cancelled k v s.
    destruct (setCache_calls os cancelled k v s) as (calls & H & P).
    exists calls. split; [done |]. intros * Hin.
    destruct (P _ _ _ _ _ Hin) as (_ & -> & _ & Herr). done.
  - intros os cancelled s.
    destruct (startSetCache_turn_calls os cancelled s) as (calls & H & P).
    exists calls. split; [done |]. intros * Hin.
    destruct (P _ _ _ _ _ Hin) as (_ & _ & Herr). done.
Qed.

(** C8. The content type of an upload is that of the key's extension:
    [.info], [.mod] and [.zip] give [application/json; charset=utf-8],
    [text/plain; charset=utf-8] and [application/zip], any other extension
    the empty string; multipart is disabled exactly for a size strictly
    below [256<<20] (256 MiB).  An entry whose stat answers "does not
    exist" uploads the staged file's content under its key with the file's
    size and these options, and no upload is made with other options. *)
Theorem upload_parameters :
  (forall name : string,
      (path.Ext name = ".info"%string ->
       contentTypeOf name = "application/json; charset=utf-8"%string)
      /\ (path.Ext name = ".mod"%string ->
          contentTypeOf name = "text/plain; charset=utf-8"%string)
      /\ (path.Ext name = ".zip"%string ->
          contentTypeOf name = "application/zip"%string)
      /\ (path.Ext name <> ".info"%string -> path.Ext name <> ".mod"%string ->
          path.Ext name <> ".zip"%string -> contentTypeOf name = ""%string))
  /\ (forall (name : string) (size : Z),
      ContentType (putObjectOptions name size) = contentTypeOf name
      /\ (DisableMultipart (putObjectOptions name size) = true
          <-> size < 256 * 1024 * 1024)
      /\ (DisableMultipart (putObjectOptions name size) = false
          <-> 256 * 1024 * 1024 <= size))
  /\ (forall (os : OS) (k v : string) (s : state) (err : error) (content : string),
      open_error os (files s) v = None ->
      fstat_fails os v = None ->
      files s !! v = Some content ->
      StatObject qiniuKodoClient qiniuKodoBucketName k = inr err ->
      isMinIOObjectNotExist err = true ->
      let size := Z.of_nat (String.length content) in
      exists rest,
        log (setCache os false k v s).2
        = log s ++ [call_os_Open v; call_File_Stat v;
                    call_StatObject qiniuKodoBucketName k;
                    call_PutObject qiniuKodoBucketName k content size
                      (putObjectOptions k size)] ++ rest)
  /\ (forall (os : OS) (cancelled : bool) (k v : string) (s : state),
      exists calls,
        log (setCache os cancelled k v s).2 = log s ++ calls
        /\ forall b n f sz o,
            call_PutObject b n f sz o ∈ calls ->
            b = qiniuKodoBucketName /\ n = k /\ o = putObjectOptions k sz).
Proof.
  split; [| split; [| split]].
  - intros name. unfold contentTypeOf. repeat split.
    + by intros ->.
    + by intros ->.
    + by intros ->.
    + intros H1 H2 H3. apply String.eqb_neq in H1, H2, H3.
      by rewrite H1, H2, H3.
  - intros name size. unfold putObjectOptions. cbn [ContentType DisableMultipart].
    change (Z.shiftl 256 20) with (256 * 1024 * 1024).
    split; [done |]. split; [apply Z.ltb_lt | apply Z.ltb_ge].
  - intros os k v s err content Hopen Hfstat Hfile Hstat Hne size.
    destruct (setCache_upload os k v s err content Hopen Hfstat Hfile Hstat Hne)
      as (s' & -> & _ & _ & Hlog).
    cbn [snd]. rewrite Hlog. eexists. reflexivity.
  - intros os cancelled k v s.
    destruct (setCache_calls os cancelled k v s) as (calls & H & P).
    exists calls. split; [done |]. intros * Hin.
    destruct (P _ _ _ _ _ Hin) as (-> & -> & -> & _). done.
Qed.

(** ** The checksum of [Get] *)

Lemma DecodeString_all_hex (n : nat) (s : string) :
  all_hex s = true ->
  String.length s = (2 * n)%nat ->
  exists dst, hex.DecodeString s = (dst, None) /\ List.length dst = n.
Proof.
  revert s. induction n as [|n IH]; intros s Hhex Hlen.
  - destruct s; [| discriminate]. by exists [].
  - destruct s as [|p [|q rest]]; simpl in Hlen; [lia | lia |].
    cbn [all_hex] in Hhex. cbn [hex.DecodeString].
    destruct (hex.fromHexChar p) as [a|]; [| discriminate].
    destruct (hex.fromHexChar q) as [b|]; [| discriminate].
    destruct (IH rest Hhex) as (dst & -> & Hdst); [lia |].
    eexists. split; [reflexivity |]. cbn [List.length]. by rewrite Hdst.
Qed.

(** Decoding goes through a prefix of hexadecimal digit pairs. *)
Lemma DecodeString_app (n : nat) (h rest : string) :
  all_hex h = true ->
  String.length h = (2 * n)%nat ->
  hex.DecodeString (h ++ rest)
  = ((hex.DecodeString h).1 ++ (hex.DecodeString rest).1,
     (hex.DecodeString rest).2).
Proof.
  revert h. induction n as [|n IH]; intros h Hhex Hlen.
  - destruct h; [| discriminate]. change (("" ++ rest)%string) with rest.
    by destruct (hex.DecodeString rest).
  - destruct h as [|p [|q h]]; simpl in Hlen; [lia | lia |].
    cbn [all_hex] in Hhex. rewrite !app_String. cbn [hex.DecodeString].
    destruct (hex.fromHexChar p) as [a|]; [| discriminate].
    destruct (hex.fromHexChar q) as [b|]; [| discriminate].
    rewrite (IH h Hhex) by lia.
    by destruct (hex.DecodeString h), (hex.DecodeString rest).
Qed.

Lemma byte_roundtrips_all (v : Z) : 0 <= v < 256 -> byte_roundtrips v = true.
Proof.
  intros Hv.
  assert (forallb byte_roundtrips (map Z.of_nat (seq 0 256)) = true) as Hall
    by (vm_compute; reflexivity).
  rewrite forallb_forall in Hall. apply Hall.
  rewrite <- (Z2Nat.id v) by lia. apply in_map, in_seq. lia.
Qed.

(** [hex.DecodeString] undoes [hex.EncodeToString]. *)
Lemma DecodeString_EncodeToString (src : bytes) :
  Forall (fun v => 0 <= v < 256) src ->
  hex.DecodeString (hex.EncodeToString src) = (src, None).
Proof.
  induction 1 as [|v src Hv _ IH]; [done |].
  cbn [hex.EncodeToString hex.DecodeString].
  pose proof (byte_roundtrips_all v Hv) as Hb. unfold byte_roundtrips in Hb.
  destruct (hex.fromHexChar (hex.digit (Z.shiftr v 4))) as [a|]; [| done].
  destruct (hex.fromHexChar (hex.digit (Z.land v 15))) as [b|]; [| done].
  rewrite IH. apply andb_true_iff in Hb as [_ Hb]. apply Z.eqb_eq in Hb.
  by rewrite Hb.
Qed.

Lemma md5_Sum_length (data : bytes) : List.length (md5.Sum data) = md5.Size.
Proof.
  unfold md5.Sum.
  destruct (md5.blocks _ md5.init (md5.pad data)) as [[[a b] c] d].
  reflexivity.
Qed.

(** C2, as the code has it.  When the stat and the opening of the object
    succeed, [Get] returns a reader and no error whatever the entity tag
    is.  Its checksum is the decoded tag when the tag is 32 hexadecimal
    digits; it is the MD5 sum of the tag string when the hexadecimal
    decoder, stopping at the end of the tag or at its first error, has not
    produced exactly 16 bytes; and it is the 16 bytes decoded whenever the
    decoder has produced exactly 16, also when it then stopped on an
    error: so for 32 hexadecimal digits followed by anything of which the
    decoder decodes no byte.  The checksum always has 16 bytes. *)
Theorem Get_checksum (name : string) (objectInfo : ObjectInfo) (object : Object) :
  StatObject qiniuKodoClient qiniuKodoBucketName name = inl objectInfo ->
  GetObject qiniuKodoClient qiniuKodoBucketName (Key objectInfo) = inl object ->
  exists r,
    goproxyCacher_Get name = (Some r, None)
    /\ (hex_digest (ETag objectInfo) = true ->
        hex.DecodeString (ETag objectInfo) = (checksum r, None))
    /\ (List.length (hex.DecodeString (ETag objectInfo)).1 <> md5.Size ->
        checksum r = md5.Sum (bytes_of_string (ETag objectInfo)))
    /\ (List.length (hex.DecodeString (ETag objectInfo)).1 = md5.Size ->
        checksum r = (hex.DecodeString (ETag objectInfo)).1)
    /\ (forall h rest,
        ETag objectInfo = (h ++ rest)%string ->
        hex_digest h = true ->
        (hex.DecodeString rest).1 = [] ->
        checksum r = (hex.DecodeString h).1)
    /\ List.length (checksum r) = md5.Size.
Proof.
  intros Hstat Hget. unfold goproxyCacher_Get. rewrite Hstat.
  destruct (hex.DecodeString (ETag objectInfo)) as [dst e] eqn:Hdec.
  rewrite Hget. eexists. split; [reflexivity |]. cbn [checksum fst].
  assert (forall h, hex_digest h = true ->
            exists d, hex.DecodeString h = (d, None) /\ List.length d = md5.Size)
    as Hdigest.
  { intros h. unfold hex_digest. rewrite andb_true_iff, Nat.eqb_eq.
    intros [Hlen Hhex]. by apply DecodeString_all_hex. }
  destruct (Nat.eqb_spec (List.length dst) md5.Size) as [Heq | Hne]; cbn [negb].
  - split; [| split; [done | split; [done | split; [| done]]]].
    + intros Hh. destruct (Hdigest _ Hh) as (d & Hd & _). congruence.
    + intros h rest Htag Hh Hrest. destruct (Hdigest _ Hh) as (d & Hd & Hl).
      unfold hex_digest in Hh. apply andb_true_iff in Hh as [Hlen Hhex].
      apply Nat.eqb_eq in Hlen.
      rewrite Htag, (DecodeString_app md5.Size h rest Hhex Hlen) in Hdec.
      rewrite Hrest, app_nil_r in Hdec. congruence.
  - split; [| split; [done | split; [done | split]]].
    + intros Hh. destruct (Hdigest _ Hh) as (d & Hd & Hl). congruence.
    + intros h rest Htag Hh Hrest. destruct (Hdigest _ Hh) as (d & Hd & Hl).
      unfold hex_digest in Hh. apply andb_true_iff in Hh as [Hlen Hhex].
      apply Nat.eqb_eq in Hlen.
      rewrite Htag, (DecodeString_app md5.Size h rest Hhex Hlen) in Hdec.
      rewrite Hrest, app_nil_r, Hd in Hdec. cbn [fst] in Hdec. congruence.
    + apply md5_Sum_length.
Qed.

(** * Further properties *)

(** ** The redirect policy, beyond the threshold *)

Lemma isAutoRedirectable_strings (name : string) :
  isAutoRedirectableGoproxyCache name = true
  <-> ~ (exists rest, name = ("sumdb/" ++ rest)%string)
      /\ (exists a b, name = (a ++ "/@v/" ++ b)%string)
      /\ (exists q, name = (q ++ ".zip")%string).
Proof.
  unfold isAutoRedirectableGoproxyCache.
  rewrite !andb_true_iff, negb_true_iff, Contains_spec, String.eqb_eq, Ext_zip.
  rewrite <- HasPrefix_spec, not_true_iff_false. tauto.
Qed.

(** X1. A redirect is answered only when the redirection is enabled, the
    cleaned name is outside [sumdb/], contains [/@v/] and ends in [.zip],
    the stat found the object with at least the minimum size, and the
    pre-signing gave the URL redirected to. *)
Theorem hGoproxy_redirect_only (req : Request) (url : string) :
  let name := strings.TrimPrefix (path.Clean (RawPath req)) "/" in
  hGoproxy req = Redirect url ->
  goproxyAutoRedirect = true
  /\ ~ (exists rest, name = ("sumdb/" ++ rest)%string)
  /\ (exists a b, name = (a ++ "/@v/" ++ b)%string)
  /\ (exists q, name = (q ++ ".zip")%string)
  /\ exists objectInfo u,
      StatObject qiniuKodoClient qiniuKodoBucketName name = inl objectInfo
      /\ goproxyAutoRedirectMinSize <= Size objectInfo
      /\ Presign qiniuKodoClient (Method req) qiniuKodoBucketName
           (Key objectInfo) (7 * 24 * time.Hour)
           [("response-cache-control"%string,
             ["public, max-age=604800"%string])] = inl u
      /\ url = URL_String u.
Proof.
  intros name. unfold hGoproxy. fold name.
  destruct goproxyAutoRedirect; cbn [negb orb]; [| discriminate].
  destruct (isAutoRedirectableGoproxyCache name) eqn:Hname; cbn [negb];
    [| discriminate].
  apply isAutoRedirectable_strings in Hname as (Hsumdb & Hv & Hzip).
  destruct (StatObject qiniuKodoClient qiniuKodoBucketName name)
    as [objectInfo | err].
  2: { destruct (isMinIOObjectNotExist err); discriminate. }
  destruct (Z.ltb_spec (Size objectInfo) goproxyAutoRedirectMinSize) as [Hlt | Hge];
    [discriminate |].
  destruct (Presign _ _ _ _ _ _) as [u | err] eqn:Hsign; [| discriminate].
  intros [= <-]. repeat split; try done. eauto 10.
Qed.

(** X2. With the redirection disabled, or for a cleaned name under
    [sumdb/], without [/@v/] or not ending in [.zip], the request goes to
    the proxy whatever the client would answer. *)
Theorem hGoproxy_proxied_without_store (req : Request) :
  let name := strings.TrimPrefix (path.Clean (RawPath req)) "/" in
  goproxyAutoRedirect = false
  \/ (exists rest, name = ("sumdb/" ++ rest)%string)
  \/ ~ (exists a b, name = (a ++ "/@v/" ++ b)%string)
  \/ ~ (exists q, name = (q ++ ".zip")%string) ->
  hGoproxy req = ServeHTTP.
Proof.
  intros name H. unfold hGoproxy. fold name.
  destruct goproxyAutoRedirect; cbn [negb orb]; [| done].
  destruct (isAutoRedirectableGoproxyCache name) eqn:Hname; cbn [negb]; [| done].
  apply isAutoRedirectable_strings in Hname as (Hsumdb & Hv & Hzip).
  destruct H as [H | [H | [H | H]]]; [discriminate | done | done | done].
Qed.

(** ** The reader of [Get] *)

(** X3. [Get] returns either a reader and no error, or an error and no
    reader.  The reader wraps the object opened under the key the stat
    reported; its [ModTime()] is the stat's [LastModified] and its
    [Checksum()] has 16 bytes. *)
Theorem Get_reader_or_error (name : string) :
  (exists r objectInfo object,
      goproxyCacher_Get name = (Some r, None)
      /\ StatObject qiniuKodoClient qiniuKodoBucketName name = inl objectInfo
      /\ GetObject qiniuKodoClient qiniuKodoBucketName (Key objectInfo)
         = inl object
      /\ ReadSeekCloser r = object
      /\ goproxyCacheReader_ModTime r = LastModified objectInfo
      /\ List.length (goproxyCacheReader_Checksum r) = md5.Size)
  \/ (exists err, goproxyCacher_Get name = (None, Some err)).
Proof.
  unfold goproxyCacher_Get.
  destruct (StatObject qiniuKodoClient qiniuKodoBucketName name)
    as [objectInfo | err] eqn:Hstat.
  2: { right. destruct (isMinIOObjectNotExist err); eauto. }
  destruct (hex.DecodeString (ETag objectInfo)) as [dst e].
  destruct (GetObject qiniuKodoClient qiniuKodoBucketName (Key objectInfo))
    as [object | err] eqn:Hget; [| right; eauto].
  left. eexists _, objectInfo, object.
  split; [reflexivity |]. split; [reflexivity |]. split; [exact Hget |].
  split; [reflexivity |]. split; [reflexivity |].
  unfold goproxyCacheReader_Checksum. cbn [checksum].
  destruct (Nat.eqb_spec (List.length dst) md5.Size) as [Heq | Hne]; cbn [negb];
    [exact Heq | apply md5_Sum_length].
Qed.

(** X4. When the entity tag is the hexadecimal encoding of a 16-byte
    digest, [Get] gives that digest back as the checksum. *)
Theorem Get_checksum_roundtrip (name : string) (objectInfo : ObjectInfo)
    (object : Object) (digest : bytes) :
  StatObject qiniuKodoClient qiniuKodoBucketName name = inl objectInfo ->
  GetObject qiniuKodoClient qiniuKodoBucketName (Key objectInfo) = inl object ->
  Forall (fun v => 0 <= v < 256) digest ->
  List.length digest = md5.Size ->
  ETag objectInfo = hex.EncodeToString digest ->
  exists r,
    goproxyCacher_Get name = (Some r, None)
    /\ goproxyCacheReader_Checksum r = digest.
Proof.
  intros Hstat Hget Hrange Hlen Htag. unfold goproxyCacher_Get.
  rewrite Hstat, Htag, (DecodeString_EncodeToString digest Hrange), Hget, Hlen.
  eexists. split; reflexivity.
Qed.

(** ** The name of a staged file *)

Lemma byte_at_range (x k : Z) : 0 <= byte_at x k < 256.
Proof.
  unfold byte_at. change 255 with (Z.ones 8). rewrite Z.land_ones by lia.
  apply Z.mod_pos_bound. lia.
Qed.

Lemma sha256_round_length (W st : list Z) (i : nat) :
  List.length st = 8%nat -> List.length (sha256.round W st i) = 8%nat.
Proof.
  intros H. do 9 (destruct st as [|? st]; try discriminate H). reflexivity.
Qed.

Lemma sha256_rounds_length (W : list Z) (l : list nat) (st : list Z) :
  List.length st = 8%nat ->
  List.length (fold_left (sha256.round W) l st) = 8%nat.
Proof.
  revert st. induction l as [|i l IH]; intros st H; cbn [fold_left]; [done |].
  by apply IH, sha256_round_length.
Qed.

Lemma sha256_blocks_length (n : nat) (st : list Z) (bs : bytes) :
  List.length st = 8%nat -> List.length (sha256.blocks n st bs) = 8%nat.
Proof.
  revert st bs. induction n as [|n IH]; intros st bs H; cbn [sha256.blocks];
    [done |].
  apply IH. unfold sha256.block.
  rewrite length_map, length_combine, sha256_rounds_length by done. lia.
Qed.

Lemma Sum256_shape (data : bytes) :
  List.length (sha256.Sum256 data) = 32%nat
  /\ Forall (fun v => 0 <= v < 256) (sha256.Sum256 data).
Proof.
  unfold sha256.Sum256.
  pose proof (sha256_blocks_length
                (List.length (sha256.pad data) / 64) sha256.init
                (sha256.pad data) eq_refl) as H.
  destruct (sha256.blocks _ sha256.init (sha256.pad data)) as [|? st];
    [discriminate H |].
  do 8 (destruct st as [|? st]; try discriminate H).
  split; [reflexivity |].
  cbn [map concat app sha256.word_bytes]. repeat constructor; apply byte_at_range.
Qed.

Lemma EncodeToString_length (src : bytes) :
  String.length (hex.EncodeToString src) = (2 * List.length src)%nat.
Proof. induction src as [|v src IH]; simpl; [done | rewrite IH; lia]. Qed.

Lemma EncodeToString_all_hex (src : bytes) :
  Forall (fun v => 0 <= v < 256) src ->
  all_hex (hex.EncodeToString src) = true.
Proof.
  induction 1 as [|v src Hv _ IH]; [done |].
  cbn [hex.EncodeToString all_hex].
  pose proof (byte_roundtrips_all v Hv) as Hb. unfold byte_roundtrips in Hb.
  destruct (hex.fromHexChar (hex.digit (Z.shiftr v 4))); [| done].
  by destruct (hex.fromHexChar (hex.digit (Z.land v 15))).
Qed.

Lemma hex_char_plain (c : ascii) :
  is_Some (hex.fromHexChar c) ->
  negb (Ascii.eqb c "/") && negb (Ascii.eqb c ".") = true.
Proof.
  destruct c as [[] [] [] [] [] [] [] []]; vm_compute; intros [x H];
    done.
Qed.

Lemma all_hex_plain (s : string) : all_hex s = true -> plain s = true.
Proof.
  induction s as [|c s IH]; [done |]. cbn [all_hex plain].
  destruct (hex.fromHexChar c) as [v|] eqn:Hc; [| done].
  intros H. rewrite (hex_char_plain c) by (rewrite Hc; eauto). by apply IH.
Qed.

(** X5. Whatever the cache name is, the staged file is named by 64
    hexadecimal digits (the encoding of the SHA-256 sum of the name, which
    decodes back to it): the element joined to the cache root holds no [/]
    and no [.]. *)
Theorem localCacheFileName_digest (root name : string) :
  let sum := sha256.Sum256 (bytes_of_string name) in
  let element := hex.EncodeToString sum in
  localCacheFileName root name = filepath.Join root element
  /\ String.length element = 64%nat
  /\ all_hex element = true
  /\ plain element = true
  /\ hex.DecodeString element = (sum, None).
Proof.
  intros sum element.
  destruct (Sum256_shape (bytes_of_string name)) as [Hlen Hrange].
  fold sum in Hlen, Hrange.
  pose proof (EncodeToString_all_hex sum Hrange) as Hhex.
  repeat split.
  - unfold element. by rewrite EncodeToString_length, Hlen.
  - exact Hhex.
  - by apply all_hex_plain.
  - by apply DecodeString_EncodeToString.
Qed.

(** ** [path.Clean], piece by piece

    What [Clean] computes for a path is what it computes for the cleaned
    path, alone or joined to a working directory; hence the file that
    [filepath.Join] names from a root and an element lies under that root
    however the root is spelled. *)

Lemma cleanLoop_cleanRun (fuel : nat) (rooted : bool) (rest : string)
    (out : list ascii) (dotdot : nat) :
  path.cleanLoop fuel rooted rest out dotdot
  = (cleanRun fuel rooted rest out dotdot).1.
Proof.
  revert rest out dotdot. induction fuel as [|fuel IH]; intros rest out dotdot;
    [done |].
  cbn [path.cleanLoop cleanRun]. destruct rest as [|c rest1]; [done |].
  destruct (path.cleanStep rooted c rest1 out dotdot) as [[rest' out'] dotdot'].
  apply IH.
Qed.

Lemma cleanRun_fuel (fuel k : nat) (rooted : bool) (rest : string)
    (out : list ascii) (dotdot : nat) :
  (String.length rest <= fuel)%nat ->
  cleanRun (fuel + k) rooted rest out dotdot
  = cleanRun fuel rooted rest out dotdot.
Proof.
  revert rest out dotdot. induction fuel as [|fuel IH]; intros rest out dotdot Hlen.
  - destruct rest; [by destruct k | simpl in Hlen; lia].
  - destruct rest as [|c rest1]; [done |]. cbn [cleanRun Nat.add].
    pose proof (cleanStep_length rooted c rest1 out dotdot) as Hstep.
    destruct (path.cleanStep rooted c rest1 out dotdot) as [[rest' out'] dotdot'].
    cbn [fst] in Hstep. simpl in Hlen. apply IH. lia.
Qed.

Lemma cleaned_nil (rooted : bool) (st : list ascii * nat) :
  cleaned rooted "" st = st.
Proof. by destruct st. Qed.

Lemma cleaned_step (rooted : bool) (c : ascii) (rest1 : string)
    (st : list ascii * nat) :
  cleaned rooted (String c rest1) st
  = cleaned rooted (path.cleanStep rooted c rest1 st.1 st.2).1.1
      ((path.cleanStep rooted c rest1 st.1 st.2).1.2,
       (path.cleanStep rooted c rest1 st.1 st.2).2).
Proof.
  unfold cleaned. cbn [String.length cleanRun].
  pose proof (cleanStep_length rooted c rest1 st.1 st.2) as Hstep.
  destruct (path.cleanStep rooted c rest1 st.1 st.2) as [[rest' out'] dotdot'].
  cbn [fst snd] in *.
  replace (String.length rest1)
    with (String.length rest' + (String.length rest1 - String.length rest'))%nat
    by lia.
  by apply cleanRun_fuel.
Qed.

Lemma reversed_String (c : ascii) (e : string) (out : list ascii) :
  reversed (String c e) ++ out = reversed e ++ c :: out.
Proof. unfold reversed. cbn [list_ascii_of_string rev]. by rewrite <- app_assoc. Qed.

Lemma copyElem_element (e y : string) (out : list ascii) :
  noslash e = true ->
  path.startsElemEnd y = true ->
  path.copyElem (e ++ y) out = (y, reversed e ++ out).
Proof.
  revert out. induction e as [|c e IH]; intros out He Hy.
  - change ("" ++ y)%string with y. destruct y as [|c y]; [done |].
    cbn in Hy. cbn [path.copyElem]. by rewrite Hy.
  - cbn [noslash] in He. apply andb_true_iff in He as [Hc He].
    rewrite app_String. cbn [path.copyElem].
    apply negb_true_iff in Hc. rewrite Hc.
    rewrite IH by done. by rewrite reversed_String.
Qed.

Lemma split_element (x : string) :
  exists e y, x = (e ++ y)%string /\ noslash e = true
              /\ path.startsElemEnd y = true.
Proof.
  induction x as [|c x (e & y & -> & He & Hy)].
  - by exists ""%string, ""%string.
  - destruct (Ascii.eqb c "/") eqn:Hc.
    + exists ""%string, (String c (e ++ y)). repeat split. cbn. exact Hc.
    + exists (String c e), y. repeat split; [| done]. cbn. by rewrite Hc.
Qed.

Lemma startsElemEnd_app (x y : string) :
  path.startsElemEnd y = true ->
  path.startsElemEnd (x ++ y) = path.startsElemEnd x.
Proof. intros Hy. by destruct x. Qed.

Lemma noslash_head (c : ascii) (e y : string) :
  noslash (String c e) = true ->
  path.startsElemEnd (String c e ++ y) = false.
Proof.
  cbn. intros [Hc _]%andb_true_iff. by apply negb_true_iff in Hc.
Qed.

(** One turn of the loop on an element. *)
Lemma cleanStep_element (rooted : bool) (c : ascii) (e1 y : string)
    (out : list ascii) (dotdot : nat) :
  pathElement (String c e1) = true ->
  path.startsElemEnd y = true ->
  path.cleanStep rooted c (e1 ++ y) out dotdot
  = (y, reversed (String c e1) ++ separated rooted out, dotdot).
Proof.
  intros He Hy. unfold pathElement in He.
  apply andb_true_iff in He as [He Hdd].
  apply andb_true_iff in He as [He Hd].
  apply andb_true_iff in He as [He _].
  apply negb_true_iff in Hd, Hdd. apply String.eqb_neq in Hd, Hdd.
  pose proof He as He'. cbn [noslash] in He'.
  apply andb_true_iff in He' as [Hc He1]. apply negb_true_iff in Hc.
  unfold path.cleanStep. rewrite Hc.
  change (String c (e1 ++ y)) with (String c e1 ++ y)%string.
  rewrite (copyElem_element _ _ _ He Hy). fold (separated rooted out).
  destruct (Ascii.eqb c ".") eqn:Hdot.
  - apply Ascii.eqb_eq in Hdot as ->.
    destruct e1 as [|c1 e2]; [done |].
    rewrite (noslash_head c1 e2 y He1). cbn [andb].
    rewrite app_String.
    destruct (Ascii.eqb c1 ".") eqn:Hdot1; [| done].
    apply Ascii.eqb_eq in Hdot1 as ->.
    destruct e2 as [|c2 e3]; [done |].
    cbn [noslash] in He1. apply andb_true_iff in He1 as [_ He2].
    by rewrite (noslash_head c2 e3 y He2).
  - cbn [andb]. by destruct (e1 ++ y)%string.
Qed.

Lemma cleanStep_piece (c : ascii) (rest1 : string) :
  exists pc y,
    (String.length y <= String.length rest1)%nat
    /\ match pc with Elem e => pathElement e = true | _ => True end
    /\ forall rooted out dotdot,
        path.cleanStep rooted c rest1 out dotdot
        = (y, (act rooted pc (out, dotdot)).1, (act rooted pc (out, dotdot)).2).
Proof.
  destruct (Ascii.eqb c "/") eqn:Hc.
  { exists Slash, rest1. split; [lia |]. split; [done |].
    intros. unfold path.cleanStep. by rewrite Hc. }
  destruct (split_element rest1) as (e1 & y & -> & He1 & Hy).
  destruct (pathElement (String c e1)) eqn:He.
  { exists (Elem (String c e1)), y. split; [| split; [done |]].
    - rewrite length_app_string. lia.
    - intros. by apply cleanStep_element. }
  unfold pathElement in He. cbn [noslash] in He. rewrite Hc, He1 in He.
  cbn [negb andb] in He.
  destruct (String.eqb_spec (String c e1) ".") as [[= -> ->]|Hd].
  { exists Dot, y. split; [done |]. split; [done |]. intros.
    change ("" ++ y)%string with y. unfold path.cleanStep.
    by rewrite Hy. }
  destruct (String.eqb_spec (String c e1) "..") as [[= -> ->]|Hdd]; [| done].
  exists DotDot, y. split; [rewrite length_app_string; lia |]. split; [done |]. intros.
  change ("." ++ y)%string with (String "." y). unfold path.cleanStep.
  cbn [Ascii.eqb Bool.eqb andb path.startsElemEnd]. rewrite Hy.
  unfold act, backtracked. cbn [fst snd].
  destruct (dotdot <? length out)%nat; [done |].
  by destruct rooted.
Qed.

Lemma cleaned_piece (c : ascii) (rest1 : string) :
  exists pc y,
    (String.length y <= String.length rest1)%nat
    /\ match pc with Elem e => pathElement e = true | _ => True end
    /\ forall rooted st,
        cleaned rooted (String c rest1) st = cleaned rooted y (act rooted pc st).
Proof.
  destruct (cleanStep_piece c rest1) as (pc & y & Hlen & He & Hstep).
  exists pc, y. split; [done |]. split; [done |].
  intros rooted [out dotdot]. rewrite cleaned_step. cbn [fst snd].
  rewrite Hstep. cbn [fst snd]. by destruct (act rooted pc (out, dotdot)).
Qed.

Lemma copyElem_app (x y : string) (out : list ascii) :
  path.startsElemEnd y = true ->
  path.copyElem (x ++ y) out
  = ((path.copyElem x out).1 ++ y, (path.copyElem x out).2)%string.
Proof.
  revert out. induction x as [|c x IH]; intros out Hy.
  - change ("" ++ y)%string with y. destruct y as [|c y]; [done |].
    cbn in Hy. cbn [path.copyElem]. by rewrite Hy.
  - rewrite app_String. cbn [path.copyElem].
    destruct (Ascii.eqb c "/"); [done |]. by apply IH.
Qed.

Lemma cleanStep_app (rooted : bool) (c : ascii) (rest1 y : string)
    (out : list ascii) (dotdot : nat) :
  path.startsElemEnd y = true ->
  path.cleanStep rooted c (rest1 ++ y) out dotdot
  = (((path.cleanStep rooted c rest1 out dotdot).1.1 ++ y)%string,
     (path.cleanStep rooted c rest1 out dotdot).1.2,
     (path.cleanStep rooted c rest1 out dotdot).2).
Proof.
  intros Hy. unfold path.cleanStep.
  rewrite (startsElemEnd_app rest1 y Hy).
  change (String c (rest1 ++ y)) with (String c rest1 ++ y)%string.
  rewrite (copyElem_app (String c rest1) y _ Hy).
  destruct (path.copyElem (String c rest1) _) as [rest' out2].
  cbn [fst snd].
  destruct (Ascii.eqb c "/"); [done |].
  destruct (Ascii.eqb c "." && path.startsElemEnd rest1) eqn:Hdot; [done |].
  destruct rest1 as [|c1 rest2].
  - change ("" ++ y)%string with y. destruct y as [|c1 y]; [done |].
    cbn in Hy. apply Ascii.eqb_eq in Hy as ->.
    cbn [path.startsElemEnd] in Hdot. rewrite andb_true_r in Hdot.
    by rewrite Hdot.
  - rewrite app_String. rewrite (startsElemEnd_app rest2 y Hy).
    destruct (Ascii.eqb c "." && Ascii.eqb c1 "." && path.startsElemEnd rest2);
      [| done].
    destruct (dotdot <? length out)%nat; [done |].
    by destruct rooted.
Qed.

Lemma cleaned_app (rooted : bool) (x y : string) (st : list ascii * nat) :
  path.startsElemEnd y = true ->
  cleaned rooted (x ++ y) st = cleaned rooted y (cleaned rooted x st).
Proof.
  intros Hy. remember (String.length x) as n eqn:Hn.
  revert x st Hn. induction (lt_wf n) as [n _ IH]. intros x st ->.
  destruct x as [|c rest1].
  - by rewrite cleaned_nil.
  - rewrite app_String, !cleaned_step, cleanStep_app by done.
    pose proof (cleanStep_length rooted c rest1 st.1 st.2) as Hlen.
    destruct (path.cleanStep rooted c rest1 st.1 st.2) as [[rest' out'] dotdot'].
    cbn [fst snd] in *.
    apply (IH (String.length rest')); [simpl; lia | done].
Qed.

(** An element is pushed, [/] is skipped, [..] backtracks. *)
Lemma cleaned_element (rooted : bool) (e y : string) (st : list ascii * nat) :
  pathElement e = true ->
  path.startsElemEnd y = true ->
  cleaned rooted (e ++ y) st = cleaned rooted y (pushed rooted e st).
Proof.
  intros He Hy. destruct e as [|c e1]; [done |].
  rewrite app_String, cleaned_step, cleanStep_element by done. done.
Qed.

Lemma cleaned_slash (rooted : bool) (x : string) (st : list ascii * nat) :
  cleaned rooted (String "/" x) st = cleaned rooted x st.
Proof. rewrite cleaned_step. unfold path.cleanStep. cbn. by destruct st. Qed.

Lemma cleaned_dotdot (rooted : bool) (st : list ascii * nat) :
  cleaned rooted ".." st = backtracked rooted st.
Proof.
  rewrite cleaned_step. unfold path.cleanStep, backtracked.
  cbn [Ascii.eqb Bool.eqb andb path.startsElemEnd].
  destruct st as [out dotdot]. cbn [fst snd].
  destruct (dotdot <? length out)%nat; [done |].
  by destruct rooted.
Qed.

(** ** The buffers of [Clean] *)

Lemma length_reversed (e : string) : length (reversed e) = String.length e.
Proof.
  unfold reversed. rewrite length_rev.
  induction e as [|c e IH]; simpl; congruence.
Qed.

Lemma length_separated (rooted : bool) (out : list ascii) :
  (length out <= length (separated rooted out))%nat.
Proof. unfold separated. destruct (_ || _); simpl; lia. Qed.

Lemma element_String (e : string) :
  pathElement e = true ->
  exists c e1, e = String c e1 /\ Ascii.eqb c "/" = false /\ noslash e1 = true.
Proof.
  unfold pathElement. intros He.
  apply andb_true_iff in He as [He _]. apply andb_true_iff in He as [He _].
  apply andb_true_iff in He as [He Hne].
  destruct e as [|c e1]; [done |]. cbn in He.
  apply andb_true_iff in He as [Hc He]. apply negb_true_iff in Hc.
  by exists c, e1.
Qed.

Lemma noslash_reversed (e : string) :
  noslash e = true -> Forall (fun c => Ascii.eqb c "/" = false) (reversed e).
Proof.
  unfold reversed. intros He. apply Forall_rev.
  induction e as [|c e IH]; [constructor |].
  cbn in He. apply andb_true_iff in He as [Hc He].
  apply negb_true_iff in Hc. constructor; auto.
Qed.

Lemma unwind_drop (l X : list ascii) (dotdot : nat) :
  Forall (fun c => Ascii.eqb c "/" = false) l ->
  (dotdot < length X)%nat ->
  path.unwind (l ++ X) (length (l ++ X) - 1) dotdot
  = path.unwind X (length X - 1) dotdot.
Proof.
  intros Hl HX. induction Hl as [|c l Hc _ IH]; [done |].
  cbn [app path.unwind length]. rewrite Hc. cbn [negb].
  replace (S (length (l ++ X)) - 1)%nat with (length (l ++ X)) by lia.
  assert ((dotdot <? length (l ++ X))%nat = true) as ->.
  { apply Nat.ltb_lt. rewrite length_app. lia. }
  exact IH.
Qed.

Lemma built_shape (rooted : bool) (out : list ascii) (dotdot : nat) :
  built rooted out dotdot ->
  (dotdot <= length out)%nat
  /\ (if rooted then dotdot = 1%nat /\ last out = Some "/"%char
      else last out <> Some "/"%char).
Proof.
  induction 1 as [out dotdot Hfloor -> | out dotdot e _ [Hle Hlast] He].
  - split; [done |]. destruct rooted.
    + by subst out.
    + by destruct Hfloor as [-> | ->].
  - split.
    { rewrite length_app. pose proof (length_separated rooted out). lia. }
    destruct (element_String e He) as (c & e1 & -> & Hc & _).
    unfold reversed. cbn [list_ascii_of_string rev]. rewrite <- app_assoc.
    unfold separated. destruct rooted.
    + destruct Hlast as [-> Hlast]. split; [done |].
      destruct (_ || _); by rewrite !last_app, ?last_cons, Hlast.
    + cbn [andb orb negb]. destruct out as [|c0 out].
      * cbn. rewrite last_app. cbn. intros [= ->]. by cbn in Hc.
      * cbn [length Nat.eqb negb]. rewrite !last_app, last_cons.
        rewrite last_cons in Hlast |- *. by destruct (last out).
Qed.

(** [..] undoes the push of an element. *)
Lemma backtracked_pushed (rooted : bool) (e : string) (out : list ascii)
    (dotdot : nat) :
  built rooted out dotdot ->
  pathElement e = true ->
  backtracked rooted (pushed rooted e (out, dotdot)) = (out, dotdot).
Proof.
  intros Hb He. destruct (built_shape _ _ _ Hb) as [Hle Hshape].
  destruct (element_String e He) as (c & e1 & -> & Hc & He1).
  unfold backtracked, pushed. cbn [fst snd].
  assert ((dotdot <? length (reversed (String c e1) ++ separated rooted out))%nat
          = true) as ->.
  { apply Nat.ltb_lt. rewrite length_app, length_reversed.
    pose proof (length_separated rooted out). simpl. lia. }
  f_equal. unfold separated.
  destruct ((rooted && negb (length out =? 1)%nat)
            || (negb rooted && negb (length out =? 0)%nat)) eqn:Hsep.
  - rewrite unwind_drop; [| apply noslash_reversed; cbn; by rewrite Hc
                          | simpl; lia].
    cbn [path.unwind length]. by rewrite andb_false_r.
  - unfold reversed. cbn [list_ascii_of_string rev]. rewrite <- app_assoc.
    cbn [app].
    assert (dotdot = length out) as Hdd.
    { destruct rooted.
      - destruct Hshape as [-> _]. cbn in Hsep.
        rewrite orb_false_r in Hsep. apply negb_false_iff in Hsep.
        by apply Nat.eqb_eq in Hsep.
      - cbn in Hsep. apply negb_false_iff in Hsep.
        apply Nat.eqb_eq in Hsep. lia. }
    rewrite unwind_drop; [| exact (noslash_reversed e1 He1)
                          | simpl; lia].
    cbn [path.unwind length].
    replace (S (length out) - 1)%nat with (length out) by lia.
    assert ((dotdot <? length out)%nat = false) as ->; [| done].
    apply Nat.ltb_ge. lia.
Qed.

Lemma built_act (rooted : bool) (pc : piece) (st : list ascii * nat) :
  built rooted st.1 st.2 ->
  match pc with Elem e => pathElement e = true | _ => True end ->
  built rooted (act rooted pc st).1 (act rooted pc st).2.
Proof.
  destruct st as [out dotdot]. cbn [fst snd]. intros Hb Hpc.
  destruct pc as [| | |e]; cbn [act]; try done.
  - destruct Hb as [out dotdot Hfloor -> | out dotdot e Hb He].
    + unfold backtracked. cbn [fst snd]. rewrite Nat.ltb_irrefl.
      destruct rooted; cbn [negb fst snd].
      * by apply built_floor.
      * apply built_floor; [| done]. right.
        destruct Hfloor as [-> | Hlast]; [done |].
        destruct out as [|c0 out]; [done |]. cbn [length Nat.ltb Nat.leb].
        exact Hlast.
    + change (reversed e ++ separated rooted out, dotdot)
        with (pushed rooted e (out, dotdot)).
      by rewrite backtracked_pushed.
  - by apply built_push.
Qed.

Lemma built_cleaned (rooted : bool) (x : string) (st : list ascii * nat) :
  built rooted st.1 st.2 ->
  built rooted (cleaned rooted x st).1 (cleaned rooted x st).2.
Proof.
  remember (String.length x) as n eqn:Hn.
  revert x st Hn. induction (lt_wf n) as [n _ IH]. intros x st -> Hb.
  destruct x as [|c rest1]; [by rewrite cleaned_nil |].
  destruct (cleaned_piece c rest1) as (pc & y & Hlen & He & ->).
  apply (IH (String.length y)); [simpl; lia | done |].
  by apply built_act.
Qed.

(** ** The path a buffer stands for *)

Lemma string_app_nil_r (s : string) : (s ++ "")%string = s.
Proof. induction s as [|c s IH]; [done |]. by rewrite app_String, IH. Qed.

Lemma string_app_assoc (a b c : string) :
  (a ++ (b ++ c))%string = ((a ++ b) ++ c)%string.
Proof. induction a as [|x a IH]; [done |]. by rewrite !app_String, IH. Qed.

Lemma string_of_list_ascii_app (l1 l2 : list ascii) :
  string_of_list_ascii (l1 ++ l2)
  = (string_of_list_ascii l1 ++ string_of_list_ascii l2)%string.
Proof.
  induction l1 as [|c l1 IH]; [done |].
  cbn [app string_of_list_ascii]. by rewrite app_String, IH.
Qed.

Lemma written_app (l1 l2 : list ascii) :
  written (l1 ++ l2) = (written l2 ++ written l1)%string.
Proof. unfold written. by rewrite rev_app_distr, string_of_list_ascii_app. Qed.

Lemma written_reversed (e : string) : written (reversed e) = e.
Proof.
  unfold written, reversed. by rewrite rev_involutive, string_of_list_ascii_of_string.
Qed.

Lemma written_pushed (rooted : bool) (e : string) (st : list ascii * nat) :
  written (pushed rooted e st).1
  = (written st.1
     ++ (if (rooted && negb (length st.1 =? 1)%nat)
            || (negb rooted && negb (length st.1 =? 0)%nat)
         then "/" else "") ++ e)%string.
Proof.
  unfold pushed, separated. cbn [fst]. rewrite written_app, written_reversed.
  destruct (_ || _); [| done].
  change ("/"%char :: st.1) with (["/"%char] ++ st.1).
  by rewrite written_app, <- string_app_assoc.
Qed.

Lemma written_rooted (out : list ascii) (dotdot : nat) :
  built true out dotdot -> exists w, written out = String "/" w.
Proof.
  intros Hb. destruct (built_shape _ _ _ Hb) as [_ [_ Hlast]].
  apply last_Some in Hlast as [l ->]. exists (written l).
  by rewrite written_app.
Qed.

Lemma written_relative (out : list ascii) (dotdot : nat) :
  built false out dotdot -> strings.HasPrefix (written out) "/" = false.
Proof.
  intros Hb. destruct (built_shape _ _ _ Hb) as [_ Hlast].
  destruct (strings.HasPrefix (written out) "/") eqn:Hp; [| done].
  apply HasPrefix_spec in Hp as [w Hw]. destruct Hlast.
  unfold written in Hw.
  apply (f_equal list_ascii_of_string) in Hw.
  rewrite list_ascii_of_string_of_list_ascii in Hw.
  apply (f_equal (@rev ascii)) in Hw. rewrite rev_involutive in Hw.
  rewrite Hw. change ("/" ++ w)%string with (String "/" w).
  cbn [list_ascii_of_string rev]. by rewrite last_app.
Qed.

(** ** [Clean] of a cleaned path *)

Lemma built_rootedFloor : built true rootedFloor.1 rootedFloor.2.
Proof. by apply built_floor. Qed.

Lemma cleaned_pushed (rooted : bool) (e : string) (st : list ascii * nat) :
  pathElement e = true -> cleaned rooted e st = pushed rooted e st.
Proof.
  intros He. rewrite <- (string_app_nil_r e) at 1.
  by rewrite cleaned_element, cleaned_nil.
Qed.

(** The loop run over the path of a rooted buffer builds that buffer. *)
Lemma cleaned_written (out : list ascii) (dotdot : nat) :
  built true out dotdot ->
  forall w, written out = String "/" w ->
            cleaned true w rootedFloor = (out, dotdot).
Proof.
  induction 1 as [out dotdot -> -> | out dotdot e Hb IH He]; intros w Hw.
  - by injection Hw as <-.
  - destruct (written_rooted _ _ Hb) as [w0 Hw0].
    specialize (IH w0 Hw0).
    change (reversed e ++ separated true out)
      with (pushed true e (out, dotdot)).1 in Hw.
    rewrite written_pushed in Hw. cbn [fst andb negb orb] in Hw.
    rewrite orb_false_r, Hw0, app_String in Hw. injection Hw as <-.
    destruct (length out =? 1)%nat eqn:Hlen; cbn [negb].
    + destruct (built_shape _ _ _ Hb) as [_ [-> Hlast]].
      apply Nat.eqb_eq in Hlen.
      destruct out as [|c [|c' out]]; try done. injection Hlast as ->.
      injection Hw0 as <-. change ("" ++ "" ++ e)%string with e.
      by rewrite cleaned_pushed.
    + rewrite cleaned_app, IH by done.
      change ("/" ++ e)%string with (String "/" e).
      rewrite cleaned_slash, cleaned_pushed by done.
      unfold pushed, separated. cbn [fst snd andb negb orb].
      by rewrite Hlen.
Qed.

(** ** [Clean] of a relative path joined to a rooted one *)

Lemma act_under (under : list ascii * nat) (pc : piece)
    (st : list ascii * nat) :
  built true under.1 under.2 ->
  built false st.1 st.2 ->
  match pc with Elem e => pathElement e = true | _ => True end ->
  act true pc (cleaned true (written st.1) under)
  = cleaned true (written (act false pc st).1) under.
Proof.
  intros Hunder Hst Hpc.
  assert (forall e out dotdot,
             pathElement e = true ->
             cleaned true (written (pushed false e (out, dotdot)).1) under
             = pushed true e (cleaned true (written out) under)) as Hpush.
  { intros e out dotdot He. rewrite written_pushed.
    cbn [fst andb negb orb]. destruct out as [|c0 out].
    - cbn [length Nat.eqb negb]. change (written []) with ""%string.
      change ("" ++ "" ++ e)%string with e.
      by rewrite cleaned_nil, cleaned_pushed.
    - cbn [length Nat.eqb negb]. rewrite cleaned_app by done.
      change ("/" ++ e)%string with (String "/" e).
      by rewrite cleaned_slash, cleaned_pushed. }
  destruct pc as [| | |e]; cbn [act]; try done.
  - destruct st as [out dotdot]. cbn [fst snd] in *.
    destruct Hst as [out dotdot Hfloor -> | out dotdot e Hst He].
    + unfold backtracked at 2. cbn [fst snd negb].
      rewrite Nat.ltb_irrefl. cbn [fst].
      destruct out as [|c0 out].
      * cbn [length Nat.ltb Nat.leb]. change (written []) with ""%string.
        rewrite cleaned_nil. change (written ["."%char; "."%char]) with ".."%string.
        by rewrite cleaned_dotdot.
      * cbn [length Nat.ltb Nat.leb].
        change ("."%char :: "."%char :: "/"%char :: c0 :: out)
          with (["."%char; "."%char; "/"%char] ++ c0 :: out).
        rewrite written_app. change (written ["."%char; "."%char; "/"%char])
          with "/.."%string.
        by rewrite cleaned_app, cleaned_slash, cleaned_dotdot.
    + change (reversed e ++ separated false out, dotdot)
        with (pushed false e (out, dotdot)).
      rewrite backtracked_pushed by done. cbn [fst].
      change (reversed e ++ separated false out)
        with (pushed false e (out, dotdot)).1.
      rewrite Hpush by done.
      pose proof (built_cleaned true (written out) under Hunder) as Hq.
      destruct (cleaned true (written out) under) as [out' dotdot'].
      by apply backtracked_pushed.
  - destruct st as [out dotdot]. by rewrite Hpush.
Qed.

Lemma cleaned_under (under : list ascii * nat) (x : string)
    (st : list ascii * nat) :
  built true under.1 under.2 ->
  built false st.1 st.2 ->
  cleaned true x (cleaned true (written st.1) under)
  = cleaned true (written (cleaned false x st).1) under.
Proof.
  intros Hunder. remember (String.length x) as n eqn:Hn.
  revert x st Hn. induction (lt_wf n) as [n _ IH]. intros x st -> Hst.
  destruct x as [|c rest1]; [by rewrite !cleaned_nil |].
  destruct (cleaned_piece c rest1) as (pc & y & Hlen & He & Hstep).
  rewrite !Hstep, act_under by done.
  apply (IH (String.length y)); [simpl; lia | done |].
  by apply built_act.
Qed.

(** ** Staged files lie under the staging root *)

Lemma length_written (out : list ascii) :
  String.length (written out) = length out.
Proof.
  unfold written. rewrite <- (length_rev out).
  induction (rev out) as [|c l IH]; simpl; congruence.
Qed.

Lemma HasPrefix_app (p r : string) : strings.HasPrefix (p ++ r) p = true.
Proof. apply HasPrefix_spec. by exists r. Qed.

Lemma Clean_rooted (rest : string) :
  path.Clean (String "/" rest) = written (cleaned true rest rootedFloor).1.
Proof.
  unfold path.Clean. cbn [Ascii.eqb Bool.eqb]. rewrite cleanLoop_cleanRun.
  change (cleanRun (String.length rest) true rest ["/"%char] 1)
    with (cleaned true rest rootedFloor).
  pose proof (built_cleaned true rest rootedFloor built_rootedFloor) as Hb.
  destruct (built_shape _ _ _ Hb) as [_ [_ Hlast]].
  by destruct (cleaned true rest rootedFloor).1.
Qed.

Lemma Clean_relative (p : string) :
  p <> ""%string ->
  strings.HasPrefix p "/" = false ->
  path.Clean p
  = match (cleaned false p ([], 0%nat)).1 with
    | [] => "."%string
    | out => written out
    end.
Proof.
  intros Hne Hrel. destruct p as [|c rest]; [done |].
  unfold path.Clean.
  assert (Ascii.eqb c "/" = false) as ->.
  { destruct (Ascii.eqb c "/") eqn:Hc; [| done].
    apply Ascii.eqb_eq in Hc as ->.
    pose proof (HasPrefix_app "/" rest) as Habs.
    change ("/" ++ rest)%string with (String "/" rest) in Habs. congruence. }
  rewrite cleanLoop_cleanRun.
  change (cleanRun (String.length (String c rest)) false (String c rest) [] 0)
    with (cleaned false (String c rest) ([], 0%nat)).
  by destruct (cleaned false (String c rest) ([], 0%nat)).1.
Qed.

(** The path of a rooted buffer and the path after the push of an
    element. *)
Lemma pushed_below (e : string) (st : list ascii * nat) :
  built true st.1 st.2 ->
  let r := written st.1 in
  let n := written (pushed true e st).1 in
  String.eqb n r
  || strings.HasPrefix n (if String.eqb r "/" then r else (r ++ "/")%string)
  = true.
Proof.
  intros Hb r n. apply orb_true_iff. right. unfold n.
  rewrite written_pushed. fold r. cbn [andb negb orb]. rewrite orb_false_r.
  destruct (length st.1 =? 1)%nat eqn:Hlen; cbn [negb].
  - destruct (written_rooted _ _ Hb) as [w Hw]. fold r in Hw.
    apply Nat.eqb_eq in Hlen. rewrite <- length_written in Hlen. fold r in Hlen.
    rewrite Hw in Hlen |- *. destruct w; [| done].
    cbn [String.eqb Ascii.eqb Bool.eqb]. apply HasPrefix_app.
  - assert (String.eqb r "/" = false) as ->.
    { apply String.eqb_neq. intros Hr. apply Nat.eqb_neq in Hlen.
      apply Hlen. by rewrite <- length_written; fold r; rewrite Hr. }
    rewrite string_app_assoc. apply HasPrefix_app.
Qed.

Lemma HasPrefix_slash (p : string) :
  strings.HasPrefix p "/" = true -> exists rest, p = String "/" rest.
Proof. intros [rest ->]%HasPrefix_spec. by exists rest. Qed.

Lemma joined_below (wd root e : string) :
  strings.HasPrefix wd "/" = true ->
  root <> ""%string ->
  pathElement e = true ->
  below wd root (filepath.Join root e) = true.
Proof.
  intros [wd' ->]%HasPrefix_slash Hroot He.
  assert (String.eqb root "" = false) as Hroot' by by apply String.eqb_neq.
  unfold filepath.Join. rewrite Hroot'. cbn [negb].
  set (p := path.Clean (root ++ "/" ++ e)).
  set (floor := ([], 0%nat) : list ascii * nat).
  assert (built false floor.1 floor.2) as Hfloor by (by apply built_floor; [left |]).
  assert (exists st : list ascii * nat,
             built true st.1 st.2
             /\ filepath.Abs (String "/" wd') root = written st.1
             /\ filepath.Abs (String "/" wd') p = written (pushed true e st).1
             /\ p <> ""%string)
    as (st & Hst & Hr & Hn & Hp).
  { unfold filepath.Abs. destruct (strings.HasPrefix root "/") eqn:Habs.
    - apply HasPrefix_slash in Habs as [root' ->].
      exists (cleaned true root' rootedFloor).
      split; [apply built_cleaned, built_rootedFloor |].
      split; [apply Clean_rooted |].
      assert (p = written (pushed true e (cleaned true root' rootedFloor)).1)
        as Hp.
      { unfold p. rewrite app_String, Clean_rooted, cleaned_app by done.
        change ("/" ++ e)%string with (String "/" e).
        by rewrite cleaned_slash, cleaned_pushed. }
      pose proof (built_push true _ _ e
                    (built_cleaned true root' rootedFloor built_rootedFloor) He)
        as Hb.
      change (reversed e ++ separated true (cleaned true root' rootedFloor).1)
        with (pushed true e (cleaned true root' rootedFloor)).1 in Hb.
      destruct (written_rooted _ _ Hb) as [w Hw].
      rewrite Hp, Hw. split; [| done].
      rewrite (HasPrefix_app "/" w : strings.HasPrefix (String "/" w) "/" = true).
      by rewrite Clean_rooted, (cleaned_written _ _ Hb w Hw).
    - set (under := cleaned true wd' rootedFloor).
      assert (built true under.1 under.2) as Hunder
        by apply built_cleaned, built_rootedFloor.
      set (st := cleaned false root floor).
      assert (built false st.1 st.2) as Hst by by apply built_cleaned.
      exists (cleaned true (written st.1) under).
      split; [by apply built_cleaned |].
      assert (forall x, x <> ""%string ->
                filepath.Join (String "/" wd') x
                = written (cleaned true x under).1) as Hjoin.
      { intros x Hx. unfold filepath.Join. cbn [String.eqb negb].
        rewrite app_String, Clean_rooted, cleaned_app by done.
        change ("/" ++ x)%string with (String "/" x).
        by rewrite cleaned_slash. }
      split.
      + rewrite Hjoin by done. f_equal.
        pose proof (cleaned_under under root floor Hunder Hfloor) as H.
        change (written floor.1) with ""%string in H.
        rewrite cleaned_nil in H. by rewrite H.
      + assert (p = written (pushed false e st).1) as Hp.
        { unfold p. rewrite Clean_relative.
          - rewrite cleaned_app by done.
            change ("/" ++ e)%string with (String "/" e).
            rewrite cleaned_slash, cleaned_pushed by done. fold floor st.
            destruct (element_String e He) as (c & e1 & -> & _).
            unfold pushed, reversed. cbn [fst list_ascii_of_string rev].
            by destruct (rev (list_ascii_of_string e1)).
          - by destruct root.
          - destruct root as [|c root]; [done |].
            rewrite app_String. unfold strings.HasPrefix in *.
            cbn [String.length Nat.leb substring andb] in *.
            by destruct root. }
        pose proof (built_push false _ _ e Hst He) as Hb.
        change (reversed e ++ separated false st.1)
          with (pushed false e st).1 in Hb.
        assert (p <> ""%string) as Hne.
        { rewrite Hp. destruct (element_String e He) as (c & e1 & -> & _).
          rewrite written_pushed. intros H.
          apply (f_equal String.length) in H.
          rewrite !length_app_string in H. simpl in H. lia. }
        split; [| done].
        rewrite Hp at 1. rewrite (written_relative _ _ Hb).
        rewrite (Hjoin p Hne), Hp. f_equal.
        pose proof (act_under under (Elem e) st Hunder Hst He) as H.
        cbn [act] in H. by rewrite H. }
  unfold below. rewrite Hroot'. cbn [orb].
  apply String.eqb_neq in Hp. rewrite Hp.
  rewrite Hr, Hn. by apply pushed_below.
Qed.

Lemma plain_pathElement (e : string) :
  plain e = true -> e <> ""%string -> pathElement e = true.
Proof.
  intros Hplain Hne. unfold pathElement.
  assert (noslash e = true) as ->.
  { induction e as [|c e IH]; [done |]. cbn in Hplain |- *.
    apply andb_true_iff in Hplain as [[Hc _]%andb_true_iff He].
    rewrite Hc. cbn. destruct e as [|c' e]; [done |]. by apply IH. }
  apply String.eqb_neq in Hne. rewrite Hne. cbn [negb andb].
  destruct e as [|c e]; [done |]. cbn in Hplain.
  apply andb_true_iff in Hplain as [[_ Hdot]%andb_true_iff He].
  apply negb_true_iff, Ascii.eqb_neq in Hdot.
  assert (String c e <> "."%string) as ->%String.eqb_neq by congruence.
  assert (String c e <> ".."%string) as ->%String.eqb_neq by congruence.
  done.
Qed.

(** Whatever the staging root and the cache name, the file [Set] stages
    lies under the root. *)
Lemma staged_below (wd root name : string) :
  strings.HasPrefix wd "/" = true ->
  root <> ""%string ->
  below wd root (localCacheFileName root name) = true.
Proof.
  intros Hwd Hroot. unfold localCacheFileName.
  destruct (Sum256_shape (bytes_of_string name)) as [Hlen Hrange].
  apply joined_below; [done | done |].
  apply plain_pathElement.
  - by apply all_hex_plain, EncodeToString_all_hex.
  - intros H. apply (f_equal String.length) in H.
    by rewrite EncodeToString_length, Hlen in H.
Qed.

(** ** The shutdown job *)

Lemma removed_below (wd root name : string) (fs : gmap string string) :
  below wd root name = true -> removed wd root fs !! name = None.
Proof.
  intros Hbelow. unfold removed. apply map_lookup_filter_None. right.
  intros x _. cbn. by rewrite Hbelow.
Qed.

Lemma removed_outside (wd root name : string) (fs : gmap string string) :
  below wd root name = false -> removed wd root fs !! name = fs !! name.
Proof.
  intros Hbelow. unfold removed.
  destruct (fs !! name) as [x|] eqn:Hx.
  - by apply map_lookup_filter_Some.
  - apply map_lookup_filter_None. by left.
Qed.

Lemma removed_partial (wd root : string) (gone : string -> bool)
    (fs : gmap string string) :
  removed wd root
    (filter (fun kv => (below wd root kv.1 && gone kv.1) = false) fs)
  = removed wd root fs.
Proof.
  apply map_eq. intros name.
  destruct (below wd root name) eqn:Hbelow.
  - by rewrite !removed_below.
  - rewrite !removed_outside by done.
    destruct (fs !! name) as [x|] eqn:Hx.
    + apply map_lookup_filter_Some. split; [done |]. cbn. by rewrite Hbelow.
    + apply map_lookup_filter_None. by left.
Qed.

Lemma removed_nowhere (wd : string) (fs : gmap string string) :
  removed wd "" fs = fs.
Proof. unfold removed. by apply map_filter_id. Qed.

(** One [os.RemoveAll]: the error it returns, and what it does to the
    files. *)
Lemma os_RemoveAll_spec (wd : string) (outcome : removal) (root : string)
    (s : state) :
  let r := os_RemoveAll wd outcome root s in
  r.1 = RemoveAll_error outcome root
  /\ log r.2 = log s ++ [call_os_RemoveAll root]
  /\ files r.2 ⊆ files s
  /\ removed wd root (files r.2) = removed wd root (files s)
  /\ (r.1 = None -> files r.2 = removed wd root (files s)).
Proof.
  unfold os_RemoveAll, RemoveAll_error, do_call, modify, ret, bind.
  destruct (String.eqb root "") eqn:Hroot.
  - apply String.eqb_eq in Hroot as ->. cbn.
    by rewrite removed_nowhere.
  - destruct (endsWithDot root); [by cbn |].
    destruct outcome as [[err gone]|]; cbn.
    + split; [done |]. split; [done |].
      split; [apply map_filter_subseteq |].
      split; [apply removed_partial | done].
    + split; [done |]. split; [done |].
      split; [apply map_filter_subseteq |].
      split; [| done].
      etrans; [| apply (removed_partial wd root (fun _ => true))].
      f_equal. apply map_filter_ext. intros name x _. cbn.
      by rewrite andb_true_r.
Qed.

Lemma shutdownLoop_spec (wd : string) (removals : nat -> removal)
    (root : string) (n i : nat) (s : state) :
  let s' := (shutdownLoop wd removals root n i s).2 in
  files s' ⊆ files s
  /\ removed wd root (files s') = removed wd root (files s)
  /\ ((exists j, (j < n)%nat
         /\ RemoveAll_error (removals (i + j)%nat) root = None
         /\ (forall j', (j' < j)%nat ->
               RemoveAll_error (removals (i + j')%nat) root <> None)
         /\ log s' = log s ++ attempts root (S j)
         /\ files s' = removed wd root (files s))
      \/ ((forall j, (j < n)%nat ->
             RemoveAll_error (removals (i + j)%nat) root <> None)
          /\ log s' = log s ++ attempts root n)).
Proof.
  revert i s. induction n as [|n IH]; intros i s; cbn [shutdownLoop].
  - split; [done |]. split; [done |]. right.
    split; [lia | by rewrite app_nil_r].
  - unfold bind, do_call, modify. cbn beta iota zeta.
    set (s0 := add_log (call_Sleep time.Second) s).
    destruct (os_RemoveAll_spec wd (removals i) root s0)
      as (Herr & Hlog1 & Hsub1 & Hrem1 & Hnone).
    destruct (os_RemoveAll wd (removals i) root s0) as [err s1].
    cbn [fst snd] in *.
    change (files s0) with (files s) in *.
    change (log s0) with (log s ++ [call_Sleep time.Second]) in Hlog1.
    destruct err as [e|].
    + destruct (IH (S i) s1) as (Hsub & Hrem & Hcases).
      split; [by etrans |]. split; [by rewrite Hrem |].
      destruct Hcases as [(j & Hj & Hok & Hmin & Hlog & Hfiles)
                         | (Hall & Hlog)].
      * left. exists (S j). rewrite Nat.add_succ_r.
        split; [lia |]. split; [done |]. split; [| split].
        -- intros [|j'] Hlt; [by rewrite Nat.add_0_r, <- Herr |].
           rewrite Nat.add_succ_r. apply Hmin. lia.
        -- rewrite Hlog, Hlog1. unfold attempts.
           cbn [replicate concat]. by rewrite <- !app_assoc.
        -- by rewrite Hfiles, Hrem1.
      * right. split.
        -- intros [|j'] Hlt; [by rewrite Nat.add_0_r, <- Herr |].
           rewrite Nat.add_succ_r. apply Hall. lia.
        -- rewrite Hlog, Hlog1. unfold attempts.
           cbn [replicate concat]. by rewrite <- !app_assoc.
    + cbn [ret snd]. split; [done |]. split; [done |].
      left. exists O. rewrite Nat.add_0_r.
      split; [lia |]. split; [done |]. split; [lia |].
      split; [| by apply Hnone].
      rewrite Hlog1. unfold attempts. cbn [replicate concat].
      by rewrite <- !app_assoc.
Qed.

(** C9. The shutdown job makes at most 60 attempts, each one a sleep of
    one second followed by [os.RemoveAll] of the staging root, and stops
    with the first attempt that succeeds: when the first success is attempt
    [j] (counting from 0), exactly [j + 1] attempts are made, whatever the
    attempts before it failed on and whatever they had removed.  Whenever
    some attempt among the 60 succeeds, nothing is left at or below the
    staging root, however the root is spelled: in a process whose working
    directory is a rooted path, the file that [Set] stages for a cache
    name, whatever the name, is gone.  When all fail, 60 attempts are made
    and the job ends.  On every run the job removes files of the staging
    tree only: the files left are files that were there, and every file
    outside the tree is kept. *)
Theorem shutdownJob_bounded (wd : string) (removals : nat -> removal)
    (s : state) :
  let s' := (shutdownJob wd removals s).2 in
  let root := localCacheRoot s in
  let failure i := RemoveAll_error (removals i) root in
  (forall i s0, (os_RemoveAll wd (removals i) root s0).1 = failure i)
  /\ (exists n, (n <= 60)%nat /\ log s' = log s ++ attempts root n)
  /\ (forall j, (j < 60)%nat ->
        failure j = None ->
        (forall j', (j' < j)%nat -> failure j' <> None) ->
        log s' = log s ++ attempts root (S j)
        /\ files s' = removed wd root (files s))
  /\ (forall i, (i < 60)%nat ->
        failure i = None ->
        forall name, below wd root name = true -> files s' !! name = None)
  /\ (forall i, (i < 60)%nat ->
        failure i = None ->
        strings.HasPrefix wd "/" = true ->
        root <> ""%string ->
        forall name, files s' !! localCacheFileName root name = None)
  /\ ((forall j, (j < 60)%nat -> failure j <> None) ->
        log s' = log s ++ attempts root 60)
  /\ files s' ⊆ files s
  /\ (forall name,
        below wd root name = false -> files s' !! name = files s !! name).
Proof.
  intros s' root failure.
  split; [intros i s0; apply os_RemoveAll_spec |].
  pose proof (shutdownLoop_spec wd removals root 60 0 s) as Hloop.
  change (shutdownLoop wd removals root 60 0 s).2 with s' in Hloop.
  cbn [Nat.add] in Hloop. fold failure in Hloop.
  destruct Hloop as (Hsub & Hrem & Hcases).
  assert (forall name,
             below wd root name = false -> files s' !! name = files s !! name)
    as Houtside.
  { intros name Hname.
    by rewrite <- (removed_outside wd root name (files s')),
               <- (removed_outside wd root name (files s)), Hrem. }
  destruct Hcases as [(j & Hj & Hok & Hmin & Hlog & Hfiles) | (Hall & Hlog)].
  - split; [| split; [| split; [| split; [| split; [| split]]]]];
      [| | | | | done | done].
    + exists (S j). split; [lia | done].
    + intros j0 Hj0 Hok0 Hmin0. assert (j0 = j) as ->; [| done].
      destruct (Nat.lt_trichotomy j0 j) as [Hlt | [Heq | Hgt]]; [| done |].
      * by destruct (Hmin j0 Hlt).
      * by destruct (Hmin0 j Hgt).
    + intros i Hi Hnone name Hbelow. rewrite Hfiles. by apply removed_below.
    + intros i Hi Hnone Hwd Hroot name. rewrite Hfiles.
      by apply removed_below, staged_below.
    + intros Hnever. by destruct (Hnever j Hj).
  - split; [| split; [| split; [| split; [| split; [| split]]]]];
      [| | | | | done | done].
    + exists 60%nat. split; [lia | done].
    + intros j0 Hj0 Hok0 _. by destruct (Hall j0 Hj0).
    + intros i Hi Hnone. by destruct (Hall i Hi).
    + intros i Hi Hnone. by destruct (Hall i Hi).
    + done.
Qed.

(** ** [Set], run by run *)

(** X6. An error of [os.Stat] other than "does not exist", and an error of
    [os.Create], end [Set] with that error: the mutex is released, the
    stream is not read, and neither the files nor the registry change. *)
Theorem Set_early_errors :
  (forall (os : OS) (name : string) (content : Reader) (s : state) (err : error),
      let p := localCacheFileName (localCacheRoot s) name in
      stat_error os (files s) p = Some err ->
      errors_Is_ErrNotExist err = false ->
      exists s',
        goproxyCacher_Set os name content s = (Some err, s')
        /\ files s' = files s
        /\ settingCaches s' = settingCaches s
        /\ log s' = log s ++ once_calls s
                          ++ [call_Lock; call_os_Stat p; call_Unlock])
  /\ (forall (os : OS) (name : string) (content : Reader) (s : state)
             (err0 err : error),
      let p := localCacheFileName (localCacheRoot s) name in
      stat_error os (files s) p = Some err0 ->
      errors_Is_ErrNotExist err0 = true ->
      create_fails os p = Some err ->
      exists s',
        goproxyCacher_Set os name content s = (Some err, s')
        /\ files s' = files s
        /\ settingCaches s' = settingCaches s
        /\ log s' = log s ++ once_calls s
                          ++ [call_Lock; call_os_Stat p; call_os_Create p;
                              call_Unlock]).
Proof.
  split.
  - intros os name content s err p Hstat Hne. unfold once_calls.
    destruct s as [fs root reg once lg].
    cbn [files localCacheRoot startSetCacheOnce log settingCaches] in *.
    destruct once; run; fold p; rewrite Hstat, Hne; eexists;
      (split; [reflexivity |]); cbn; by rewrite <- ?app_assoc.
  - intros os name content s err0 err p Hstat Hne Hcreate. unfold once_calls.
    destruct s as [fs root reg once lg].
    cbn [files localCacheRoot startSetCacheOnce log settingCaches] in *.
    destruct once; run; fold p; rewrite Hstat, Hne; run; rewrite Hcreate; eexists;
      (split; [reflexivity |]); cbn; by rewrite <- ?app_assoc.
Qed.


(** X8. When the copy fails, [Set] removes the staged file without closing
    it: its calls end with [io.Copy], [os.Remove].  When the close fails,
    they end with [io.Copy], [Close], [os.Remove].  Both removals are made
    after the mutex was released. *)
Theorem Set_failure_calls :
  (forall (os : OS) (name : string) (content : Reader) (s : state)
          (err0 err : error),
      let p := localCacheFileName (localCacheRoot s) name in
      stat_error os (files s) p = Some err0 ->
      errors_Is_ErrNotExist err0 = true ->
      create_fails os p = None ->
      (copy_outcome os p content).2 = Some err ->
      log (goproxyCacher_Set os name content s).2
      = log s ++ once_calls s
              ++ [call_Lock; call_os_Stat p; call_os_Create p; call_Unlock;
                  call_io_Copy p content; call_os_Remove p])
  /\ (forall (os : OS) (name : string) (content : Reader) (s : state)
             (err0 err : error),
      let p := localCacheFileName (localCacheRoot s) name in
      stat_error os (files s) p = Some err0 ->
      errors_Is_ErrNotExist err0 = true ->
      create_fails os p = None ->
      (copy_outcome os p content).2 = None ->
      close_fails os p = Some err ->
      log (goproxyCacher_Set os name content s).2
      = log s ++ once_calls s
              ++ [call_Lock; call_os_Stat p; call_os_Create p; call_Unlock;
                  call_io_Copy p content; call_File_Close p;
                  call_os_Remove p]).
Proof.
  split.
  - intros os name content s err0 err p Hstat Hne Hcreate Hcopy.
    unfold once_calls. destruct s as [fs root reg once lg].
    cbn [files localCacheRoot startSetCacheOnce log settingCaches] in *.
    destruct once; run; fold p; rewrite Hstat, Hne; run; rewrite Hcreate; run;
      rewrite Hcopy; cbn; by rewrite <- ?app_assoc.
  - intros os name content s err0 err p Hstat Hne Hcreate Hcopy Hclose.
    unfold once_calls. destruct s as [fs root reg once lg].
    cbn [files localCacheRoot startSetCacheOnce log settingCaches] in *.
    destruct once; run; fold p; rewrite Hstat, Hne; run; rewrite Hcreate; run;
      rewrite Hcopy; run; rewrite Hclose; cbn; by rewrite <- ?app_assoc.
Qed.

(** The calls of any run of [Set]. *)
Lemma Set_calls (os : OS) (name : string) (content : Reader) (s : state) :
  let p := localCacheFileName (localCacheRoot s) name in
  let s' := (goproxyCacher_Set os name content s).2 in
  exists calls,
    log s' = log s ++ once_calls s ++ calls
    /\ startSetCacheOnce s' = true
    /\ localCacheRoot s' = localCacheRoot s
    /\ mutex_after false calls = Some false
    /\ (under_mutex false calls = [call_os_Stat p]
        \/ under_mutex false calls = [call_os_Stat p; call_os_Create p])
    /\ starts calls = O.
Proof.
  intros p. unfold once_calls. destruct s as [fs root reg once lg].
  cbn [files localCacheRoot startSetCacheOnce log settingCaches] in *.
  destruct once; run; fold p;
    (destruct (stat_error os fs p) as [err0|]; run;
     [destruct (errors_Is_ErrNotExist err0); cbn [negb]; run;
      [destruct (create_fails os p); run;
       [| destruct ((copy_outcome os p content).2); run;
          [| destruct (close_fails os p); run]] |] |]);
    cbn [snd log startSetCacheOnce localCacheRoot];
    rewrite <- ?app_assoc; eexists; (split; [reflexivity |]);
    cbn; auto 10.
Qed.

(** X9. On every run of [Set], whatever fails, the mutex is taken once and
    released once before [Set] returns: the calls of the run are those of
    [startSetCacheOnce.Do], one [Lock], the calls [held] made under the
    mutex, one [Unlock], and calls [after] among which there is no [Lock]
    and no [Unlock].  The calls made under the mutex are the [os.Stat]
    and, when it is reached, the [os.Create] of the staged file: the copy,
    the close and the removal run without it. *)
Theorem Set_mutex (os : OS) (name : string) (content : Reader) (s : state) :
  let p := localCacheFileName (localCacheRoot s) name in
  exists calls,
    log (goproxyCacher_Set os name content s).2 = log s ++ calls
    /\ mutex_after false calls = Some false
    /\ (under_mutex false calls = [call_os_Stat p]
        \/ under_mutex false calls = [call_os_Stat p; call_os_Create p])
    /\ exists held after,
        calls = once_calls s ++ call_Lock :: held ++ call_Unlock :: after
        /\ (held = [call_os_Stat p]
            \/ held = [call_os_Stat p; call_os_Create p])
        /\ Forall (fun c => c <> call_Lock /\ c <> call_Unlock) after.
Proof.
  intros p.
  assert (exists held after,
             log (goproxyCacher_Set os name content s).2
             = log s ++ once_calls s ++ call_Lock :: held ++ call_Unlock :: after
             /\ (held = [call_os_Stat p]
                 \/ held = [call_os_Stat p; call_os_Create p])
             /\ Forall (fun c => c <> call_Lock /\ c <> call_Unlock) after)
    as (held & after & Hlog & Hheld & Hafter).
  { unfold once_calls. subst p. destruct s as [fs root reg once lg].
    cbn [files localCacheRoot startSetCacheOnce log settingCaches] in *.
    set (p := localCacheFileName root name).
    destruct once; run; fold p;
      (destruct (stat_error os fs p) as [err0|]; run;
       [destruct (errors_Is_ErrNotExist err0); cbn [negb]; run;
        [destruct (create_fails os p); run;
         [| destruct ((copy_outcome os p content).2); run;
            [| destruct (close_fails os p); run]] |] |]);
      cbn [snd log startSetCacheOnce localCacheRoot];
      rewrite <- ?app_assoc; cbn [app];
      first
        [ exists [call_os_Stat p], []; split; [reflexivity |];
          split; [by left | by constructor]
        | exists [call_os_Stat p; call_os_Create p]; eexists;
          split; [reflexivity |]; split; [by right |];
          repeat constructor; discriminate ]. }
  exists (once_calls s ++ call_Lock :: held ++ call_Unlock :: after).
  split; [exact Hlog |].
  assert (mutex_after false after = Some false
          /\ under_mutex false after = []) as [Hm Hu].
  { clear Hlog. induction Hafter as [|c after [Hl Hul] _ [IHm IHu]]; [done |].
    by destruct c. }
  split; [| split; [| by exists held, after]].
  - unfold once_calls.
    destruct (startSetCacheOnce s), Hheld as [-> | ->]; exact Hm.
  - unfold once_calls.
    destruct (startSetCacheOnce s), Hheld as [-> | ->]; cbn;
      rewrite Hu; auto.
Qed.

Lemma starts_app (a b : list call) : starts (a ++ b) = (starts a + starts b)%nat.
Proof.
  induction a as [|c a IH]; [done |]. destruct c; cbn [app starts]; lia.
Qed.

Lemma Sets_calls (runs : list (OS * string * Reader)) (s : state) :
  let s' := (Sets runs s).2 in
  exists calls,
    log s' = log s ++ calls
    /\ starts calls
       = match runs with
         | [] => O
         | _ => if startSetCacheOnce s then O else 1%nat
         end.
Proof.
  revert s. induction runs as [|[[os name] content] rest IH]; intros s.
  - exists []. split; [by rewrite app_nil_r | done].
  - cbn [Sets]. unfold bind at 1.
    destruct (Set_calls os name content s) as (c1 & H1 & Honce & _ & _ & _ & Hs1).
    destruct (goproxyCacher_Set os name content s) as [err s1]. cbn [snd] in *.
    specialize (IH s1). unfold bind at 1, ret.
    destruct (Sets rest s1) as [errs s2]. cbn [snd] in *.
    destruct IH as (c2 & H2 & Hs2).
    exists ((once_calls s ++ c1) ++ c2). split; [by rewrite H2, H1, !app_assoc |].
    rewrite !starts_app, Hs1, Hs2, Honce. unfold once_calls.
    destruct (startSetCacheOnce s), rest; reflexivity.
Qed.

(** X10. Over any number of [Set]s made one after the other on a cacher
    whose [startSetCacheOnce] has not fired, the background goroutine is
    started exactly once, whichever of them fail; on a cacher where it has
    fired, it is never started again. *)
Theorem Sets_start_once (runs : list (OS * string * Reader)) (s : state) :
  runs <> [] ->
  exists calls,
    log (Sets runs s).2 = log s ++ calls
    /\ starts calls = if startSetCacheOnce s then O else 1%nat.
Proof.
  intros Hruns. destruct (Sets_calls runs s) as (calls & Hlog & Hstarts).
  exists calls. split; [exact Hlog |]. by destruct runs.
Qed.

(** ** One entry of the registry, run by run *)

(** X13. An entry whose staged file cannot be opened because it does not
    exist is dropped from the registry, with no call to the store; any
    other failure to open it leaves the entry, the files and the store
    alone. *)
Theorem setCache_missing_file (os : OS) (k v : string) (s : state) (err : error) :
  open_error os (files s) v = Some err ->
  exists s',
    setCache os false k v s = (true, s')
    /\ files s' = files s
    /\ settingCaches s'
       = (if errors_Is_ErrNotExist err then delete k (settingCaches s)
          else settingCaches s)
    /\ log s' = log s ++ [call_os_Open v].
Proof.
  intros Hopen. destruct s as [fs root reg once lg].
  cbn [files localCacheRoot startSetCacheOnce log settingCaches] in *.
  run. rewrite Hopen.
  destruct (errors_Is_ErrNotExist err); run; eexists; split; reflexivity || auto.
Qed.

(** X14. An entry whose file opens stays pending, with its file, when the
    [Stat()] of the file fails, when the stat of the object fails with an
    error other than "does not exist", and when the upload fails; each
    time the file is closed, as the last call of the step, and the
    traversal goes on.  When the upload succeeds the entry is deleted, the
    file is removed under the mutex and then closed.  The calls of the step
    are exactly those listed. *)
Theorem setCache_pending :
  (forall (os : OS) (k v : string) (s : state) (err : error),
      open_error os (files s) v = None ->
      fstat_fails os v = Some err ->
      exists s',
        setCache os false k v s = (true, s')
        /\ files s' = files s /\ settingCaches s' = settingCaches s
        /\ log s' = log s ++ [call_os_Open v; call_File_Stat v;
                              call_File_Close v])
  /\ (forall (os : OS) (k v : string) (s : state) (err : error),
      open_error os (files s) v = None ->
      fstat_fails os v = None ->
      StatObject qiniuKodoClient qiniuKodoBucketName k = inr err ->
      isMinIOObjectNotExist err = false ->
      exists s',
        setCache os false k v s = (true, s')
        /\ files s' = files s /\ settingCaches s' = settingCaches s
        /\ log s' = log s ++ [call_os_Open v; call_File_Stat v;
                              call_StatObject qiniuKodoBucketName k;
                              call_File_Close v])
  /\ (forall (os : OS) (k v : string) (s : state) (err : error)
             (content : string),
      open_error os (files s) v = None ->
      fstat_fails os v = None ->
      files s !! v = Some content ->
      StatObject qiniuKodoClient qiniuKodoBucketName k = inr err ->
      isMinIOObjectNotExist err = true ->
      let size := Z.of_nat (String.length content) in
      exists s',
        setCache os false k v s = (true, s')
        /\ match PutObject qiniuKodoClient qiniuKodoBucketName k content size
                   (putObjectOptions k size) with
           | Some _ =>
               files s' = files s /\ settingCaches s' = settingCaches s
               /\ log s' = log s ++ [call_os_Open v; call_File_Stat v;
                                     call_StatObject qiniuKodoBucketName k;
                                     call_PutObject qiniuKodoBucketName k
                                       content size (putObjectOptions k size);
                                     call_File_Close v]
           | None =>
               files s' = delete v (files s)
               /\ settingCaches s' = delete k (settingCaches s)
               /\ log s' = log s ++ [call_os_Open v; call_File_Stat v;
                                     call_StatObject qiniuKodoBucketName k;
                                     call_PutObject qiniuKodoBucketName k
                                       content size (putObjectOptions k size);
                                     call_Lock; call_os_Remove v; call_Unlock;
                                     call_File_Close v]
           end).
Proof.
  split; [| split].
  - intros os k v s err Hopen Hfstat. destruct s as [fs root reg once lg].
    cbn [files localCacheRoot startSetCacheOnce log settingCaches] in *.
    run. rewrite Hopen, Hfstat. run. eexists. split; [reflexivity |].
    cbn. by rewrite <- ?app_assoc.
  - intros os k v s err Hopen Hfstat Hstat Hne.
    destruct s as [fs root reg once lg].
    cbn [files localCacheRoot startSetCacheOnce log settingCaches] in *.
    run. rewrite Hopen, Hfstat, Hstat, Hne. cbn [negb]. run.
    eexists. split; [reflexivity |]. cbn. by rewrite <- ?app_assoc.
  - intros os k v s err content Hopen Hfstat Hfile Hstat Hne size.
    destruct (setCache_upload os k v s err content Hopen Hfstat Hfile Hstat Hne)
      as (s' & Hrun & Hreg & Hfiles & Hlog).
    exists s'. split; [exact Hrun |]. fold size in Hreg, Hfiles, Hlog.
    by destruct (PutObject _ _ _ _ _ _).
Qed.

(** What any run of an entry does to the registry and the files. *)
Lemma setCache_effect (os : OS) (cancelled : bool) (k v : string) (s : state) :
  let s' := (setCache os cancelled k v s).2 in
  (settingCaches s' = settingCaches s /\ files s' = files s)
  \/ (settingCaches s' = delete k (settingCaches s)
      /\ (files s' = files s \/ files s' = delete v (files s))).
Proof.
  destruct s as [fs root reg once lg].
  cbn [files localCacheRoot startSetCacheOnce log settingCaches] in *.
  destruct cancelled; run; [by left |].
  destruct (open_error os fs v) as [e|]; run.
  { destruct (errors_Is_ErrNotExist e); run; cbn; auto. }
  destruct (fstat_fails os v); run; [by left |].
  destruct (StatObject qiniuKodoClient qiniuKodoBucketName k) as [info|err]; run;
    [cbn; auto |].
  destruct (isMinIOObjectNotExist err); cbn [negb]; run; [| by left].
  match goal with
  | |- context [PutObject ?c ?b ?n ?f ?sz ?o] => destruct (PutObject c b n f sz o)
  end; run; cbn; auto.
Qed.

(** ** The registry and the files *)

Lemma stat_error_honest (os : OS) (fs : gmap string string) (p : string)
    (err : error) :
  (forall e, stat_fails os p = Some e -> errors_Is_ErrNotExist e = false) ->
  stat_error os fs p = Some err ->
  errors_Is_ErrNotExist err = true ->
  fs !! p = None.
Proof.
  intros Hhonest. unfold stat_error.
  destruct (stat_fails os p) as [e|].
  - intros [= <-] Hne. rewrite (Hhonest e eq_refl) in Hne. discriminate.
  - by destruct (fs !! p).
Qed.

(** What any run of [Set] does to the registry and the files. *)
Lemma Set_effect (os : OS) (name : string) (content : Reader) (s : state) :
  let p := localCacheFileName (localCacheRoot s) name in
  let s' := (goproxyCacher_Set os name content s).2 in
  (settingCaches s' = settingCaches s /\ files s' = files s)
  \/ (exists err0,
        stat_error os (files s) p = Some err0
        /\ errors_Is_ErrNotExist err0 = true
        /\ ((settingCaches s' = settingCaches s
             /\ files s' = delete p (files s))
            \/ (settingCaches s' = <[name := p]> (settingCaches s)
                /\ files s' = <[p := delivered content]> (files s)))).
Proof.
  intros p. destruct s as [fs root reg once lg].
  cbn [files localCacheRoot startSetCacheOnce log settingCaches] in *.
  destruct once; run; fold p;
    (destruct (stat_error os fs p) as [err0|]; run; [| by left]);
    (destruct (errors_Is_ErrNotExist err0) eqn:Hne; cbn [negb]; run; [| by left]);
    (destruct (create_fails os p); run; [by left |]);
    right; exists err0; (split; [done |]); (split; [done |]);
    unfold copy_outcome;
    (destruct (write_fails os p) as [[n e]|]; cbn [fst snd]; run;
     [left; cbn; by rewrite delete_insert_eq, delete_insert_eq |]);
    (destruct (failure content); run;
     [left; cbn; by rewrite delete_insert_eq, delete_insert_eq |]);
    (destruct (close_fails os p); run;
     [left; cbn; by rewrite delete_insert_eq, delete_insert_eq |]);
    right; cbn; by rewrite insert_insert_eq.
Qed.

(** X11. [Set] keeps the registry backed by the files: if every registered
    file is there and no two keys share a file, the same holds after any
    run of [Set], failed or not, provided [os.Stat] does not report a file
    that is there as not existing. *)
Theorem Set_keeps_registry_backed (os : OS) (name : string) (content : Reader)
    (s : state) :
  let p := localCacheFileName (localCacheRoot s) name in
  let s' := (goproxyCacher_Set os name content s).2 in
  (forall e, stat_fails os p = Some e -> errors_Is_ErrNotExist e = false) ->
  registry_backed s ->
  registry_injective (settingCaches s) ->
  registry_backed s' /\ registry_injective (settingCaches s').
Proof.
  intros p s' Hhonest Hbacked Hinj.
  pose proof (Set_effect os name content s) as Heffect. cbn zeta in Heffect.
  fold p in Heffect. fold s' in Heffect.
  destruct Heffect as [[Hreg Hfiles] | (err0 & Hstat & Hne & Heffect)].
  { unfold registry_backed. by rewrite Hreg, Hfiles. }
  pose proof (stat_error_honest os _ p err0 Hhonest Hstat Hne) as Habs.
  destruct Heffect as [[Hreg Hfiles] | [Hreg Hfiles]].
  { unfold registry_backed. by rewrite Hreg, Hfiles, delete_id. }
  unfold registry_backed. rewrite Hreg, Hfiles. split.
  - intros k v Hk. apply lookup_insert_is_Some'.
    apply lookup_insert_Some in Hk as [[-> <-] | [Hne' Hk]]; [by left |].
    right. by apply (Hbacked k).
  - intros k k' v Hk Hk'.
    apply lookup_insert_Some in Hk as [[-> <-] | [Hne1 Hk]];
      apply lookup_insert_Some in Hk' as [[<- Hv] | [Hne2 Hk']].
    + done.
    + destruct (Hbacked _ _ Hk') as [c Hc]. congruence.
    + subst v. destruct (Hbacked _ _ Hk) as [c Hc]. congruence.
    + by apply (Hinj k k' v).
Qed.

Lemma Range_backed (os : OS) (cancelled : option string -> bool)
    (reg0 : gmap string string) (entries : list (string * string)) (s : state) :
  let s' :=
    (Range (fun k v => setCache os (cancelled (Some k)) k v) entries s).2 in
  registry_injective reg0 ->
  (forall k v, (k, v) ∈ entries -> reg0 !! k = Some v) ->
  settingCaches s ⊆ reg0 ->
  registry_backed s ->
  settingCaches s' ⊆ reg0 /\ registry_backed s'.
Proof.
  cbn zeta. intros Hinj. revert s.
  induction entries as [|[k v] rest IH]; intros s Hentries Hsub Hbacked.
  - done.
  - cbn [Range]. unfold bind.
    pose proof (setCache_effect os (cancelled (Some k)) k v s) as Heffect.
    destruct (setCache os (cancelled (Some k)) k v s) as [continue s1].
    cbn [snd] in Heffect.
    assert (settingCaches s1 ⊆ reg0 /\ registry_backed s1) as [Hsub1 Hbacked1].
    { destruct Heffect as [[Hreg Hfiles] | [Hreg Hfiles]].
      { unfold registry_backed. by rewrite Hreg, Hfiles. }
      split.
      { rewrite Hreg. etrans; [apply delete_subseteq | done]. }
      unfold registry_backed. rewrite Hreg. intros k' v' Hk'.
      apply lookup_delete_Some in Hk' as [Hne Hk'].
      destruct Hfiles as [-> | ->]; [by apply (Hbacked k') |].
      apply lookup_delete_is_Some. split; [| by apply (Hbacked k')].
      intros <-. apply Hne. apply (Hinj k k' v).
      - apply Hentries. left.
      - by apply (lookup_weaken (settingCaches s)). }
    destruct continue; [| split; [exact Hsub1 | exact Hbacked1]].
    apply IH; [| done | done]. intros k' v' Hin. apply Hentries. by right.
Qed.

(** X12. A whole turn of the background loop keeps the registry backed by
    the files, whatever the operating system and the store answer: a
    staged file is removed only together with its own entry. *)
Theorem startSetCache_turn_keeps_registry_backed (os : OS)
    (cancelled : option string -> bool) (s : state) :
  let s' := (startSetCache_turn os cancelled s).2 in
  registry_backed s ->
  registry_injective (settingCaches s) ->
  registry_backed s' /\ registry_injective (settingCaches s')
  /\ settingCaches s' ⊆ settingCaches s.
Proof.
  intros s' Hbacked Hinj.
  pose proof (Range_backed os cancelled (settingCaches s)
                (map_to_list (settingCaches s))
                (add_log (call_Sleep time.Second) s)) as HRange.
  cbn zeta in HRange.
  assert (registry_backed s' /\ settingCaches s' ⊆ settingCaches s)
    as [Hbacked' Hsub].
  { unfold s', startSetCache_turn, do_call, modify, gets, ret.
    unfold bind. destruct (cancelled None); [done |].
    change (settingCaches (add_log (call_Sleep time.Second) s))
      with (settingCaches s) in *.
    destruct (Range _ _ _) as [[] s2]. cbn [snd] in *.
    destruct HRange as [Hsub Hbacked']; try done.
    intros k v Hin. by apply elem_of_map_to_list. }
  split; [done |]. split; [| done].
  intros k k' v Hk Hk'.
  apply (Hinj k k' v); by apply (lookup_weaken (settingCaches s')).
Qed.

(** ** A turn that settles the registry *)

Lemma setCache_settles (os : OS) (k v : string) (s : state) :
  open_fails os v = None ->
  fstat_fails os v = None ->
  settles k ->
  exists s',
    setCache os false k v s = (true, s')
    /\ settingCaches s' = delete k (settingCaches s)
    /\ files s' = delete v (files s).
Proof.
  intros Hopen Hfstat Hsettles.
  destruct (files s !! v) as [content|] eqn:Hfile.
  - assert (open_error os (files s) v = None) as Herr
      by (unfold open_error; by rewrite Hopen, Hfile).
    destruct Hsettles as [[objectInfo Hstat] | (err & Hstat & Hne & Hput)].
    + destruct (setCache_present os k v s objectInfo Herr Hfstat Hstat)
        as (s' & Hrun & Hreg & Hfiles & _). eauto.
    + destruct (setCache_upload os k v s err content Herr Hfstat Hfile Hstat Hne)
        as (s' & Hrun & Hreg & Hfiles & _).
      rewrite Hput in Hreg, Hfiles. eauto.
  - destruct (setCache_missing_file os k v s (PathError "open" v ErrNotExist))
      as (s' & Hrun & Hfiles & Hreg & _).
    { unfold open_error. by rewrite Hopen, Hfile. }
    exists s'. split; [exact Hrun |]. split; [exact Hreg |].
    by rewrite Hfiles, delete_id.
Qed.

Lemma lookup_after_delete (m m' : gmap string string) (k : string)
    (ks : list string) :
  (forall x, m' !! x = if decide (x ∈ ks) then None else delete k m !! x) ->
  forall x, m' !! x = if decide (x ∈ k :: ks) then None else m !! x.
Proof.
  intros H x. rewrite H.
  destruct (decide (x ∈ ks)) as [Hin | Hnin];
    destruct (decide (x ∈ k :: ks)) as [Hin' | Hnin']; try done.
  - destruct Hnin'. apply elem_of_cons. by right.
  - apply elem_of_cons in Hin' as [-> | Hin']; [apply lookup_delete_eq | done].
  - apply lookup_delete_ne. intros <-. apply Hnin', elem_of_cons. by left.
Qed.

Lemma Range_settles (os : OS) (cancelled : option string -> bool)
    (entries : list (string * string)) (s : state) :
  (forall k v, (k, v) ∈ entries ->
     cancelled (Some k) = false /\ open_fails os v = None
     /\ fstat_fails os v = None /\ settles k) ->
  exists s',
    Range (fun k v => setCache os (cancelled (Some k)) k v) entries s = (tt, s')
    /\ (forall k, settingCaches s' !! k
                  = if decide (k ∈ entries.*1) then None
                    else settingCaches s !! k)
    /\ (forall f, files s' !! f
                  = if decide (f ∈ entries.*2) then None else files s !! f).
Proof.
  revert s. induction entries as [|[k v] rest IH]; intros s Hgood.
  - exists s. split; [done |].
    split; intros x; destruct (decide _) as [Hin | _]; try done;
      by apply elem_of_nil in Hin.
  - destruct (Hgood k v) as (Hc & Hopen & Hfstat & Hsettles); [left |].
    destruct (setCache_settles os k v s Hopen Hfstat Hsettles)
      as (s1 & Hrun & Hreg & Hfiles).
    destruct (IH s1) as (s' & HRange & Hreg' & Hfiles').
    { intros k' v' Hin. apply Hgood. by right. }
    exists s'. cbn [Range]. unfold bind. rewrite Hc, Hrun.
    split; [exact HRange |]. rewrite !fmap_cons. cbn [fst snd].
    rewrite Hreg in Hreg'. rewrite Hfiles in Hfiles'.
    split; by apply lookup_after_delete.
Qed.

(** X15. A turn that is not cancelled, in which no staged file fails to
    open or to be measured and the store, for every registered key, either
    has the object or accepts its upload, empties the registry and removes
    every registered file; the other files are left as they were. *)
Theorem startSetCache_turn_settles (os : OS) (cancelled : option string -> bool)
    (s : state) :
  (forall c, cancelled c = false) ->
  (forall k v, settingCaches s !! k = Some v ->
     open_fails os v = None /\ fstat_fails os v = None /\ settles k) ->
  exists s',
    startSetCache_turn os cancelled s = (true, s')
    /\ settingCaches s' = ∅
    /\ (forall k v, settingCaches s !! k = Some v -> files s' !! v = None)
    /\ (forall f, (forall k, settingCaches s !! k <> Some f) ->
          files s' !! f = files s !! f).
Proof.
  intros Hrun Hgood.
  destruct (Range_settles os cancelled (map_to_list (settingCaches s))
              (add_log (call_Sleep time.Second) s))
    as (s' & HRange & Hreg & Hfiles).
  { intros k v Hin. apply elem_of_map_to_list in Hin.
    destruct (Hgood k v Hin) as (? & ? & ?). by rewrite Hrun. }
  exists s'. split; [| split; [| split]].
  - unfold startSetCache_turn, do_call, modify, gets, ret. unfold bind.
    rewrite Hrun.
    change (settingCaches (add_log (call_Sleep time.Second) s))
      with (settingCaches s).
    by rewrite HRange.
  - apply map_empty. intros k. rewrite Hreg. destruct (decide _) as [|Hnot];
      [done |].
    change (settingCaches (add_log (call_Sleep time.Second) s))
      with (settingCaches s).
    destruct (settingCaches s !! k) as [v|] eqn:Hk; [| done].
    destruct Hnot. apply list_elem_of_fmap. exists (k, v).
    split; [done |]. by apply elem_of_map_to_list.
  - intros k v Hk. rewrite Hfiles. rewrite decide_True; [done |].
    apply list_elem_of_fmap. exists (k, v). split; [done |].
    by apply elem_of_map_to_list.
  - intros f Hfree. rewrite Hfiles. rewrite decide_False; [done |].
    intros Hin. apply list_elem_of_fmap in Hin as ([k v] & -> & Hin).
    apply elem_of_map_to_list in Hin. by destruct (Hfree k).
Qed.

(** X16. What the background loop uploads for a name is what [Set] was
    given for it: after a [Set] that returned [nil] for a name that was not
    staged, the entry of that name, when the store does not have the
    object, uploads under the name exactly the bytes the stream delivered,
    with their count as the size. *)
Theorem Set_then_upload (os1 os2 : OS) (name : string) (content : Reader)
    (s s1 : state) (err : error) :
  let p := localCacheFileName (localCacheRoot s) name in
  let size := Z.of_nat (String.length (delivered content)) in
  files s !! p = None ->
  goproxyCacher_Set os1 name content s = (None, s1) ->
  open_fails os2 p = None ->
  fstat_fails os2 p = None ->
  StatObject qiniuKodoClient qiniuKodoBucketName name = inr err ->
  isMinIOObjectNotExist err = true ->
  settingCaches s1 !! name = Some p
  /\ exists rest,
      log (setCache os2 false name p s1).2
      = log s1 ++ [call_os_Open p; call_File_Stat p;
                   call_StatObject qiniuKodoBucketName name;
                   call_PutObject qiniuKodoBucketName name (delivered content)
                     size (putObjectOptions name size)] ++ rest.
Proof.
  intros p size Habs Hset Hopen Hfstat Hstat Hne.
  destruct (Set_fresh_success os1 name content s s1 Habs Hset)
    as (Hfiles & Hreg & _).
  fold p in Hfiles, Hreg.
  assert (files s1 !! p = Some (delivered content)) as Hfile
    by (by rewrite Hfiles, lookup_insert_eq).
  split; [by rewrite Hreg, lookup_insert_eq |].
  destruct (setCache_upload os2 name p s1 err (delivered content))
    as (s2 & -> & _ & _ & Hlog); try done.
  { unfold open_error. by rewrite Hopen, Hfile. }
  cbn [snd]. rewrite Hlog. eexists. reflexivity.
Qed.

(** ** Cancellation *)

(** X17. A turn that finds the context cancelled after its sleep does
    nothing else and ends the loop.  Within a traversal, an entry at which
    the context is found cancelled is not looked at, and neither is any
    entry after it. *)
Theorem startSetCache_turn_cancelled (os : OS) (cancelled : option string -> bool) :
  (forall s, cancelled None = true ->
     startSetCache_turn os cancelled s
     = (false, add_log (call_Sleep time.Second) s))
  /\ (forall (before after : list (string * string)) (k v : string) (s : state),
      cancelled (Some k) = true ->
      Range (fun k v => setCache os (cancelled (Some k)) k v)
        (before ++ (k, v) :: after) s
      = Range (fun k v => setCache os (cancelled (Some k)) k v) before s).
Proof.
  split.
  - intros s Hc. unfold startSetCache_turn, do_call, modify, ret, bind.
    by rewrite Hc.
  - intros before after k v s Hc. revert s.
    induction before as [|[k' v'] before IH]; intros s.
    + cbn [app Range]. unfold bind. rewrite Hc. reflexivity.
    + cbn [app Range]. unfold bind.
      destruct (setCache os (cancelled (Some k')) k' v' s) as [[] s1];
        [apply IH | reflexivity].
Qed.

Lemma startSetCache_from (os : nat -> OS)
    (cancelled : nat -> option string -> bool) (j fuel i : nat) (s : state) :
  cancelled (i + j)%nat None = true ->
  (j < fuel)%nat ->
  (startSetCache fuel i os cancelled s).1 = true
  /\ startSetCache fuel i os cancelled s = startSetCache (S j) i os cancelled s.
Proof.
  revert fuel i s. induction j as [|j IH]; intros fuel i s Hc Hfuel.
  - destruct fuel as [|fuel]; [lia |]. rewrite Nat.add_0_r in Hc.
    cbn [startSetCache]. unfold bind.
    rewrite (proj1 (startSetCache_turn_cancelled (os i) (cancelled i)) s Hc).
    done.
  - destruct fuel as [|fuel]; [lia |]. cbn [startSetCache]. unfold bind.
    destruct (startSetCache_turn (os i) (cancelled i) s) as [[] s1]; [| done].
    apply IH; [| lia]. by rewrite Nat.add_succ_comm.
Qed.

(** X18. Once some turn finds the context cancelled after its sleep, the
    goroutine of [startSetCache] has returned: with fuel for more turns
    than that, the loop reports that it returned, in a state that more
    fuel does not change. *)
Theorem startSetCache_returns (os : nat -> OS)
    (cancelled : nat -> option string -> bool) (j fuel : nat) (s : state) :
  cancelled j None = true ->
  (j < fuel)%nat ->
  (startSetCache fuel 0 os cancelled s).1 = true
  /\ startSetCache fuel 0 os cancelled s = startSetCache (S j) 0 os cancelled s.
Proof. intros Hc Hfuel. by apply startSetCache_from. Qed.

(** ** The content type, by the end of the key *)

Lemma plain_get (ext : string) (m : nat) (c : ascii) :
  plain ext = true ->
  String.get m ext = Some c ->
  Ascii.eqb c "/" = false /\ Ascii.eqb c "." = false.
Proof.
  revert m. induction ext as [|c' ext IH]; intros m Hplain Hget; [done |].
  cbn [plain] in Hplain. apply andb_true_iff in Hplain as [Hc Hplain].
  apply andb_true_iff in Hc as [Hslash Hdot].
  destruct m as [|m]; cbn [String.get] in Hget.
  - injection Hget as <-. by rewrite !negb_true_iff in *.
  - by apply (IH m).
Qed.

Lemma get_lt (s : string) (m : nat) :
  (m < String.length s)%nat -> exists c, String.get m s = Some c.
Proof.
  revert m. induction s as [|c s IH]; intros m Hlt; simpl in Hlt; [lia |].
  destruct m as [|m]; cbn [String.get]; [eauto | apply IH; lia].
Qed.

(** The scan of [path.Ext] over a plain last part, up to the separator
    [sep] that precedes it. *)
Lemma ExtFrom_plain (q ext : string) (sep : ascii) (n : nat) :
  plain ext = true ->
  (n <= String.length ext)%nat ->
  path.ExtFrom (q ++ String sep ext) (S (String.length q + n))
  = path.ExtFrom (q ++ String sep ext) (S (String.length q)).
Proof.
  intros Hplain. induction n as [|n IH]; intros Hn.
  - by rewrite Nat.add_0_r.
  - rewrite <- IH by lia.
    destruct (get_lt ext n) as [c Hc]; [lia |].
    destruct (plain_get ext n c Hplain Hc) as [Hslash Hdot].
    change (path.ExtFrom (q ++ String sep ext) (S (String.length q + S n)))
      with (match String.get (String.length q + S n) (q ++ String sep ext) with
            | Some c =>
                if Ascii.eqb c "/" then ""%string
                else if Ascii.eqb c "."
                then substring (String.length q + S n)
                       (String.length (q ++ String sep ext)
                        - (String.length q + S n)) (q ++ String sep ext)
                else path.ExtFrom (q ++ String sep ext) (String.length q + S n)
            | None => ""%string
            end).
    rewrite get_app_r. cbn [String.get]. rewrite Hc, Hslash, Hdot.
    by rewrite Nat.add_succ_r.
Qed.

Lemma Ext_dot (q ext : string) :
  plain ext = true -> path.Ext (q ++ String "." ext) = String "." ext.
Proof.
  intros Hplain. unfold path.Ext. rewrite length_app_string.
  cbn [String.length]. rewrite Nat.add_succ_r, ExtFrom_plain by done.
  cbn [path.ExtFrom].
  rewrite <- (Nat.add_0_r (String.length q)) at 1. rewrite get_app_r.
  cbn [String.get Ascii.eqb Bool.eqb].
  rewrite length_app_string, substring_app_r.
  replace (String.length q + String.length (String "." ext) - String.length q)%nat
    with (String.length (String "." ext)) by lia.
  apply substring_0_length.
Qed.

Lemma Ext_slash (q e : string) :
  plain e = true -> path.Ext (q ++ String "/" e) = ""%string.
Proof.
  intros Hplain. unfold path.Ext. rewrite length_app_string.
  cbn [String.length]. rewrite Nat.add_succ_r, ExtFrom_plain by done.
  cbn [path.ExtFrom].
  rewrite <- (Nat.add_0_r (String.length q)) at 1. rewrite get_app_r.
  reflexivity.
Qed.

(** X19. The upload of a key that ends in [.info] is typed
    [application/json; charset=utf-8], of one that ends in [.mod]
    [text/plain; charset=utf-8], of one that ends in [.zip]
    [application/zip]; a key whose last element has no dot (such as a
    version list) is uploaded with an empty content type. *)
Theorem contentTypeOf_suffix (q : string) :
  contentTypeOf (q ++ ".info") = "application/json; charset=utf-8"%string
  /\ contentTypeOf (q ++ ".mod") = "text/plain; charset=utf-8"%string
  /\ contentTypeOf (q ++ ".zip") = "application/zip"%string
  /\ (forall e, plain e = true ->
        contentTypeOf (q ++ String "/" e) = ""%string).
Proof.
  unfold contentTypeOf. repeat split.
  - by rewrite (Ext_dot q "info").
  - by rewrite (Ext_dot q "mod").
  - by rewrite (Ext_dot q "zip").
  - intros e He. by rewrite Ext_slash.
Qed.

(** ** The mutex in the background loop *)

Lemma mutex_after_app (held : bool) (a b : list call) :
  mutex_after held (a ++ b)
  = match mutex_after held a with
    | Some held' => mutex_after held' b
    | None => None
    end.
Proof.
  revert held. induction a as [|c a IH]; intros held; [done |].
  destruct c, held; cbn [app mutex_after]; done.
Qed.

Lemma under_mutex_app (held held' : bool) (a b : list call) :
  mutex_after held a = Some held' ->
  under_mutex held (a ++ b) = under_mutex held a ++ under_mutex held' b.
Proof.
  revert held. induction a as [|c a IH]; intros held H.
  - injection H as ->. done.
  - destruct c, held; cbn [app mutex_after under_mutex] in *;
      try discriminate; rewrite ?(IH _ H); done.
Qed.

Lemma setCache_mutex (os : OS) (cancelled : bool) (k v : string) (s : state) :
  exists calls,
    log (setCache os cancelled k v s).2 = log s ++ calls
    /\ mutex_after false calls = Some false
    /\ (under_mutex false calls = []
        \/ under_mutex false calls = [call_os_Remove v]).
Proof.
  destruct s as [fs root reg once lg].
  cbn [files localCacheRoot startSetCacheOnce log settingCaches] in *.
  destruct cancelled; run; cbn [snd log].
  { close_log. cbn. auto. }
  destruct (open_error os fs v) as [e|]; run.
  { destruct (errors_Is_ErrNotExist e); run; cbn [snd log];
      close_log; cbn; auto. }
  destruct (fstat_fails os v); run; cbn [snd log].
  { close_log. cbn. auto. }
  destruct (StatObject qiniuKodoClient qiniuKodoBucketName k) as [info|err]; run;
    cbn [snd log].
  { close_log. cbn. auto. }
  destruct (isMinIOObjectNotExist err); cbn [negb]; run; cbn [snd log].
  2: { close_log. cbn. auto. }
  match goal with
  | |- context [PutObject ?c ?b ?n ?f ?sz ?o] => destruct (PutObject c b n f sz o)
  end; run; cbn [snd log]; close_log; cbn; auto.
Qed.

(** X20. In every entry step and in every whole turn of the background
    loop, each [Lock] is followed by its [Unlock], and the only calls made
    while the mutex is held are removals of staged files: the store is
    never called under the mutex. *)
Theorem startSetCache_mutex :
  (forall (os : OS) (cancelled : bool) (k v : string) (s : state),
      exists calls,
        log (setCache os cancelled k v s).2 = log s ++ calls
        /\ mutex_after false calls = Some false
        /\ (under_mutex false calls = []
            \/ under_mutex false calls = [call_os_Remove v]))
  /\ (forall (os : OS) (cancelled : option string -> bool) (s : state),
      exists calls,
        log (startSetCache_turn os cancelled s).2 = log s ++ calls
        /\ mutex_after false calls = Some false
        /\ Forall (fun c => exists v, c = call_os_Remove v)
             (under_mutex false calls)).
Proof.
  split; [exact setCache_mutex |].
  assert (forall os cancelled entries s,
    exists calls,
      log (Range (fun k v => setCache os (cancelled (Some k)) k v) entries s).2
      = log s ++ calls
      /\ mutex_after false calls = Some false
      /\ Forall (fun c => exists v, c = call_os_Remove v)
           (under_mutex false calls)) as HRange.
  { intros os cancelled entries. induction entries as [|[k v] rest IH]; intros s.
    - exists []. split; [by rewrite app_nil_r |]. split; [done | constructor].
    - cbn [Range]. unfold bind.
      destruct (setCache_mutex os (cancelled (Some k)) k v s)
        as (c1 & H1 & Hm1 & Hu1).
      destruct (setCache os (cancelled (Some k)) k v s) as [continue s1].
      cbn [snd] in H1.
      assert (Forall (fun c => exists v, c = call_os_Remove v)
                (under_mutex false c1)) as Hu1'.
      { destruct Hu1 as [-> | ->]; repeat constructor. eauto. }
      destruct continue.
      + destruct (IH s1) as (c2 & H2 & Hm2 & Hu2). exists (c1 ++ c2).
        split; [by rewrite H2, H1, app_assoc |].
        rewrite mutex_after_app, Hm1, (under_mutex_app _ _ _ _ Hm1).
        split; [done |]. by apply Forall_app.
      + exists c1. split; [done |]. split; done. }
  intros os cancelled s.
  unfold startSetCache_turn, do_call, modify, gets, ret. unfold bind.
  destruct (cancelled None).
  - exists [call_Sleep time.Second]. split; [done |]. split; [done | constructor].
  - match goal with
    | |- context [Range ?f ?l ?s1] =>
        destruct (HRange os cancelled l s1) as (c & H & Hm & Hu);
        destruct (Range f l s1) as [[] s2]
    end.
    cbn [snd log add_log] in *. exists (call_Sleep time.Second :: c).
    split; [by rewrite H, <- app_assoc |]. split; done.
Qed.

(** ** What is left alone *)

(** X21. Whatever happens in it, a run of [Set] touches no file but the
    staged file of its name and no registry entry but that of its name, and
    leaves the cache root as it was. *)
Theorem Set_frame (os : OS) (name : string) (content : Reader) (s : state) :
  let p := localCacheFileName (localCacheRoot s) name in
  let s' := (goproxyCacher_Set os name content s).2 in
  (forall f, f <> p -> files s' !! f = files s !! f)
  /\ (forall k, k <> name -> settingCaches s' !! k = settingCaches s !! k)
  /\ localCacheRoot s' = localCacheRoot s.
Proof.
  intros p s'.
  pose proof (Set_effect os name content s) as Heffect. cbn zeta in Heffect.
  fold p in Heffect. fold s' in Heffect.
  destruct (Set_calls os name content s) as (_ & _ & _ & Hroot & _).
  fold s' in Hroot. split; [| split; [| exact Hroot]].
  - intros f Hf.
    destruct Heffect as [[_ ->] | (_ & _ & _ & [[_ ->] | [_ ->]])];
      [done | by apply lookup_delete_ne | by apply lookup_insert_ne].
  - intros k Hk.
    destruct Heffect as [[-> _] | (_ & _ & _ & [[-> _] | [-> _]])];
      [done | done | by apply lookup_insert_ne].
Qed.

(** X22. Whatever happens in it, the step of an entry touches no file but
    the file of the entry and no registry entry but the entry itself. *)
Theorem setCache_frame (os : OS) (cancelled : bool) (k v : string) (s : state) :
  let s' := (setCache os cancelled k v s).2 in
  (forall f, f <> v -> files s' !! f = files s !! f)
  /\ (forall k', k' <> k -> settingCaches s' !! k' = settingCaches s !! k').
Proof.
  intros s'.
  pose proof (setCache_effect os cancelled k v s) as Heffect.
  cbn zeta in Heffect. fold s' in Heffect. split.
  - intros f Hf. destruct Heffect as [[_ ->] | [_ [-> | ->]]];
      [done | done | by apply lookup_delete_ne].
  - intros k' Hk. destruct Heffect as [[-> _] | [-> _]];
      [done | by apply lookup_delete_ne].
Qed.

End Handler.

(** ** The properties on concrete runs *)

Import Scenario.

(** An object of 999 bytes is proxied and one of 1000 bytes is redirected
    when the minimum size is 1000. *)
Lemma hGoproxy_redirect_threshold_witness :
  hGoproxy (client (inl (info tag 999)) (inl archive) None) bucket true 1000
    notExist request = ServeHTTP
  /\ hGoproxy (client (inl (info tag 1000)) (inl archive) None) bucket true 1000
       notExist request
     = Redirect "https://kodo.example/goproxy/example.com/mod/@v/v1.0.0.zip".
Proof.
  split.
  - apply (hGoproxy_redirect_threshold
             (client (inl (info tag 999)) (inl archive) None) bucket true 1000
             notExist request (info tag 999));
      [reflexivity | vm_compute; reflexivity | reflexivity | simpl; lia].
  - apply (hGoproxy_redirect_threshold
             (client (inl (info tag 1000)) (inl archive) None) bucket true 1000
             notExist request (info tag 1000));
      [reflexivity | vm_compute; reflexivity | reflexivity | simpl; lia].
Defined.

(** An object of 1000 bytes, as large as the minimum size, found by a
    client that cannot sign: the request is eligible and the object is
    large enough, and the handler returns the error of the pre-signing
    instead of a redirect. *)
Lemma hGoproxy_redirect_threshold_counterexample :
  isAutoRedirectableGoproxyCache
    (strings.TrimPrefix (path.Clean (RawPath request)) "/") = true
  /\ StatObject (unsigning (inl (info tag 1000))) bucket
       (strings.TrimPrefix (path.Clean (RawPath request)) "/")
     = inl (info tag 1000)
  /\ 1000 <= Size (info tag 1000)
  /\ hGoproxy (unsigning (inl (info tag 1000))) bucket true 1000 notExist
       request = ReturnError anonymous
  /\ forall url,
      hGoproxy (unsigning (inl (info tag 1000))) bucket true 1000 notExist
        request <> Redirect url.
Proof.
  split; [vm_compute; reflexivity |].
  split; [reflexivity |].
  split; [simpl; lia |].
  assert (hGoproxy (unsigning (inl (info tag 1000))) bucket true 1000 notExist
            request = ReturnError anonymous) as ->
    by (vm_compute; reflexivity).
  split; [reflexivity | intros url [=]].
Qed.

(** A stat answered by "service unavailable" ends the request with that
    error; one answered by "no such key" is proxied. *)
Lemma hGoproxy_stat_error_witness :
  hGoproxy (client (inr unavailable) (inl archive) None) bucket true 1000
    notExist request = ReturnError unavailable
  /\ hGoproxy (client (inr NoSuchKey) (inl archive) None) bucket true 1000
       notExist request = ServeHTTP.
Proof.
  split.
  - apply (hGoproxy_stat_error
             (client (inr unavailable) (inl archive) None) bucket true 1000
             notExist request unavailable);
      [reflexivity | vm_compute; reflexivity | reflexivity | reflexivity].
  - apply (hGoproxy_stat_error
             (client (inr NoSuchKey) (inl archive) None) bucket true 1000
             notExist request NoSuchKey);
      [reflexivity | vm_compute; reflexivity | reflexivity | reflexivity].
Defined.

Lemma Get_errors_witness :
  goproxyCacher_Get (client (inr NoSuchKey) (inl archive) None) bucket notExist zip
  = (None, Some ErrNotExist)
  /\ goproxyCacher_Get (client (inr unavailable) (inl archive) None) bucket
       notExist zip
     = (None, Some unavailable)
  /\ goproxyCacher_Get (client (inl (info tag 2)) (inr NoSuchKey) None) bucket
       notExist zip
     = (None, Some NoSuchKey).
Proof.
  split; [| split].
  - apply (proj1 (Get_errors (client (inr NoSuchKey) (inl archive) None)
                    bucket notExist zip) NoSuchKey); reflexivity.
  - apply (proj1 (proj2 (Get_errors (client (inr unavailable) (inl archive) None)
                           bucket notExist zip)) unavailable); reflexivity.
  - apply (proj2 (proj2 (Get_errors (client (inl (info tag 2)) (inr NoSuchKey) None)
                           bucket notExist zip)) (info tag 2) NoSuchKey);
      reflexivity.
Defined.

(** The tag of a one-part upload is returned decoded. *)
Lemma Get_checksum_witness :
  exists r,
    goproxyCacher_Get (client (inl (info tag 2)) (inl archive) None) bucket
      notExist zip = (Some r, None)
    /\ hex.DecodeString tag = (checksum r, None)
    /\ hex.EncodeToString (checksum r) = tag.
Proof.
  destruct (Get_checksum (client (inl (info tag 2)) (inl archive) None) bucket
              notExist zip (info tag 2) archive eq_refl eq_refl)
    as (r & Hget & Hdigest & _).
  exists r. split; [exact Hget |].
  assert (hex.DecodeString tag = (checksum r, None)) as Hdec
    by (apply Hdigest; vm_compute; reflexivity).
  split; [exact Hdec |].
  replace (checksum r) with (hex.DecodeString tag).1 by (by rewrite Hdec).
  vm_compute. reflexivity.
Defined.

(** The tag of a two-part upload is not a hexadecimal string: the decoder
    fails on its [-], after 16 bytes.  [Get] returns these 16 bytes, not
    the MD5 sum of the tag. *)
Lemma Get_checksum_counterexample :
  (hex.DecodeString multipartTag).2 = Some (InvalidByteError "-")
  /\ exists r,
      goproxyCacher_Get (client (inl (info multipartTag 2)) (inl archive) None)
        bucket notExist zip = (Some r, None)
      /\ checksum r <> md5.Sum (bytes_of_string multipartTag)
      /\ hex.EncodeToString (checksum r) = tag.
Proof.
  split; [vm_compute; reflexivity |].
  eexists. split; [vm_compute; reflexivity |].
  split; [vm_compute; intros [=] | vm_compute; reflexivity].
Qed.

(** A second [Set] of a staged name, and two [Set]s in a row from a
    cacher that has staged nothing. *)
Lemma Set_idempotent_witness :
  let p := localCacheFileName root zip in
  (exists s',
      goproxyCacher_Set quiet zip content' (staged p) = (None, s')
      /\ files s' = {[ p := "PK-first"%string ]}
      /\ settingCaches s' = {[ zip := p ]}
      /\ log s' = [call_Lock; call_os_Stat p; call_Unlock])
  /\ (exists s2,
      goproxyCacher_Set quiet zip content'
        (goproxyCacher_Set quiet zip content fresh).2 = (None, s2)
      /\ files s2 = {[ p := "PK-first"%string ]}
      /\ settingCaches s2 = {[ zip := p ]}
      /\ size (files s2) = 1%nat).
Proof.
  intros p. split.
  - destruct (proj1 Set_idempotent quiet zip content' (staged p))
      as (s' & Hset & Hfiles & Hreg & Hlog);
      [vm_compute; eexists; reflexivity | reflexivity |].
    exists s'. repeat split; assumption.
  - destruct (proj2 Set_idempotent quiet quiet zip content content' fresh
                (goproxyCacher_Set quiet zip content fresh).2)
      as (s2 & Hset & Hfiles & Hreg & Hsize & Hlog);
      [reflexivity | vm_compute; reflexivity | reflexivity |].
    exists s2. repeat split; assumption.
Defined.


(** The entry of a staged file whose object is already in the store. *)
Lemma setCache_never_overwrites_witness :
  let p := localCacheFileName root zip in
  exists s',
    setCache (client (inl (info tag 8)) (inl archive) None) bucket notExist
      quiet false zip p (staged p) = (true, s')
    /\ settingCaches s' = delete zip {[ zip := p ]}
    /\ files s' = delete p {[ p := "PK-first"%string ]}
    /\ log s' = [call_os_Open p; call_File_Stat p; call_StatObject bucket zip;
                 call_Lock; call_os_Remove p; call_Unlock; call_File_Close p].
Proof.
  intros p.
  apply (proj1 (setCache_never_overwrites
                  (client (inl (info tag 8)) (inl archive) None) bucket notExist)
           quiet zip p (staged p) (info tag 8));
    [vm_compute; reflexivity | reflexivity | reflexivity].
Defined.

(** The entry of a staged file of 8 bytes whose object is not in the
    store. *)
Lemma upload_parameters_witness :
  let p := localCacheFileName root zip in
  exists rest,
    log (setCache (client (inr NoSuchKey) (inl archive) None) bucket notExist
           quiet false zip p (staged p)).2
    = [call_os_Open p; call_File_Stat p; call_StatObject bucket zip;
       call_PutObject bucket zip "PK-first" 8
         {| ContentType := "application/zip"; DisableMultipart := true |}]
      ++ rest.
Proof.
  intros p.
  apply (proj1 (proj2 (proj2 (upload_parameters
                  (client (inr NoSuchKey) (inl archive) None) bucket notExist)))
           quiet zip p (staged p) NoSuchKey "PK-first"%string);
    [vm_compute; reflexivity | reflexivity | apply lookup_singleton_eq
    | reflexivity | reflexivity].
Defined.

(** A removal that succeeds at the third attempt, of a staging root
    spelled [./caches/...] whose files are staged as [caches/...]: three
    attempts are made, the staged file is gone and the file next to the
    staging tree is kept. *)
Lemma shutdownJob_bounded_witness :
  strings.HasPrefix (localCacheFileName relativeRoot zip)
    "caches/goproxy-china-local-caches42/" = true
  /\ log (shutdownJob workdir busyTwice
            (stagedUnder relativeRoot (localCacheFileName relativeRoot zip))).2
     = attempts relativeRoot 3
  /\ files (shutdownJob workdir busyTwice
              (stagedUnder relativeRoot (localCacheFileName relativeRoot zip))).2
     !! localCacheFileName relativeRoot zip = None
  /\ files (shutdownJob workdir busyTwice
              (stagedUnder relativeRoot (localCacheFileName relativeRoot zip))).2
     !! config = Some "[goproxy]"%string.
Proof.
  destruct (shutdownJob_bounded workdir busyTwice
              (stagedUnder relativeRoot (localCacheFileName relativeRoot zip)))
    as (_ & _ & Hfirst & _ & Hstaged & _ & _ & Houtside).
  split; [vm_compute; reflexivity |].
  destruct (Hfirst 2%nat) as [Hlog _].
  - lia.
  - vm_compute; reflexivity.
  - intros [|[|j']] Hlt; [vm_compute; discriminate | vm_compute; discriminate | lia].
  - split; [exact Hlog |]. split.
    + apply (Hstaged 2%nat);
        [lia | vm_compute; reflexivity | reflexivity | discriminate].
    + rewrite (Houtside config); vm_compute; reflexivity.
Defined.

(** ** The further properties on concrete runs *)

Lemma hGoproxy_redirect_only_witness :
  (exists a b, zip = (a ++ "/@v/" ++ b)%string)
  /\ (exists q, zip = (q ++ ".zip")%string)
  /\ exists objectInfo,
      StatObject (client (inl (info tag 1000)) (inl archive) None) bucket zip
      = inl objectInfo
      /\ 1000 <= Size objectInfo.
Proof.
  destruct (hGoproxy_redirect_only
              (client (inl (info tag 1000)) (inl archive) None) bucket true 1000
              notExist request
              "https://kodo.example/goproxy/example.com/mod/@v/v1.0.0.zip")
    as (_ & _ & Hv & Hzip & objectInfo & u & Hstat & Hsize & _);
    [vm_compute; reflexivity |].
  split; [exact Hv |]. split; [exact Hzip |]. exists objectInfo.
  split; [exact Hstat | exact Hsize].
Defined.

Lemma hGoproxy_proxied_without_store_witness :
  hGoproxy (client (inl (info tag 1000)) (inl archive) None) bucket true 1000
    notExist {| RawPath := "/sumdb/sum.golang.org/latest"; Method := "GET" |}
  = ServeHTTP
  /\ hGoproxy (client (inl (info tag 1000)) (inl archive) None) bucket false 1000
       notExist request
     = ServeHTTP.
Proof.
  split.
  - apply (hGoproxy_proxied_without_store
             (client (inl (info tag 1000)) (inl archive) None) bucket true 1000
             notExist
             {| RawPath := "/sumdb/sum.golang.org/latest"; Method := "GET" |}).
    right. left. exists "sum.golang.org/latest"%string. vm_compute. reflexivity.
  - apply (hGoproxy_proxied_without_store
             (client (inl (info tag 1000)) (inl archive) None) bucket false 1000
             notExist request).
    left. reflexivity.
Defined.

Lemma Get_checksum_roundtrip_witness :
  exists r,
    goproxyCacher_Get (client (inl (info tag 2)) (inl archive) None) bucket
      notExist zip = (Some r, None)
    /\ goproxyCacheReader_Checksum r = md5OfEmpty.
Proof.
  apply (Get_checksum_roundtrip
           (client (inl (info tag 2)) (inl archive) None) bucket notExist zip
           (info tag 2) archive md5OfEmpty);
    [reflexivity | reflexivity | repeat constructor; lia | reflexivity
    | vm_compute; reflexivity].
Defined.

Lemma Set_early_errors_witness :
  let p := localCacheFileName root zip in
  (exists s',
      goproxyCacher_Set noStat zip content fresh = (Some denied, s')
      /\ files s' = ∅ /\ settingCaches s' = ∅
      /\ log s' = [call_go_startSetCache; call_Lock; call_os_Stat p;
                   call_Unlock])
  /\ (exists s',
      goproxyCacher_Set noCreate zip content fresh = (Some denied, s')
      /\ files s' = ∅ /\ settingCaches s' = ∅
      /\ log s' = [call_go_startSetCache; call_Lock; call_os_Stat p;
                   call_os_Create p; call_Unlock]).
Proof.
  intros p. split.
  - apply (proj1 Set_early_errors noStat zip content fresh denied);
      reflexivity.
  - apply (proj2 Set_early_errors noCreate zip content fresh
             (PathError "stat" p ErrNotExist) denied); reflexivity.
Defined.


Lemma Set_failure_calls_witness :
  let p := localCacheFileName root zip in
  log (goproxyCacher_Set fullDisk zip content fresh).2
  = [call_go_startSetCache; call_Lock; call_os_Stat p; call_os_Create p;
     call_Unlock; call_io_Copy p content; call_os_Remove p]
  /\ log (goproxyCacher_Set noClose zip content fresh).2
     = [call_go_startSetCache; call_Lock; call_os_Stat p; call_os_Create p;
        call_Unlock; call_io_Copy p content; call_File_Close p;
        call_os_Remove p].
Proof.
  intros p. split.
  - apply (proj1 Set_failure_calls fullDisk zip content fresh
             (PathError "stat" p ErrNotExist) diskFull); reflexivity.
  - apply (proj2 Set_failure_calls noClose zip content fresh
             (PathError "stat" p ErrNotExist) diskFull); reflexivity.
Defined.

Lemma Sets_start_once_witness :
  exists calls,
    log (Sets [(fullDisk, zip, content); (quiet, zip, content);
               (quiet, zip, content')] fresh).2 = calls
    /\ starts calls = 1%nat.
Proof.
  destruct (Sets_start_once
              [(fullDisk, zip, content); (quiet, zip, content);
               (quiet, zip, content')] fresh) as (calls & Hlog & Hstarts);
    [discriminate |].
  exists calls. split; [exact Hlog | exact Hstarts].
Defined.

Lemma fresh_backed :
  registry_backed fresh /\ registry_injective (settingCaches fresh).
Proof.
  split.
  - intros k v H. cbn in H. by rewrite lookup_empty in H.
  - intros k k' v H. cbn in H. by rewrite lookup_empty in H.
Qed.

Lemma staged_backed (file : string) :
  registry_backed (staged file) /\ registry_injective (settingCaches (staged file)).
Proof.
  split.
  - intros k v H. cbn in H. apply lookup_singleton_Some in H as [_ <-].
    cbn. rewrite lookup_singleton_eq. eauto.
  - intros k k' v H H'. cbn in H, H'.
    apply lookup_singleton_Some in H as [<- _].
    by apply lookup_singleton_Some in H' as [<- _].
Qed.

Lemma Set_keeps_registry_backed_witness :
  registry_backed (goproxyCacher_Set quiet zip content fresh).2
  /\ registry_injective
       (settingCaches (goproxyCacher_Set quiet zip content fresh).2).
Proof.
  apply (Set_keeps_registry_backed quiet zip content fresh);
    [discriminate | apply fresh_backed | apply fresh_backed].
Defined.

Lemma startSetCache_turn_keeps_registry_backed_witness :
  let p := localCacheFileName root zip in
  let s' :=
    (startSetCache_turn (client (inr NoSuchKey) (inl archive) (Some unavailable))
       bucket notExist quiet running (staged p)).2 in
  registry_backed s' /\ registry_injective (settingCaches s')
  /\ settingCaches s' ⊆ settingCaches (staged p).
Proof.
  intros p.
  apply (startSetCache_turn_keeps_registry_backed
           (client (inr NoSuchKey) (inl archive) (Some unavailable)) bucket
           notExist quiet running (staged p)); apply staged_backed.
Defined.

Lemma setCache_missing_file_witness :
  let p := localCacheFileName root zip in
  exists s',
    setCache (client (inr NoSuchKey) (inl archive) None) bucket notExist quiet
      false zip p fresh = (true, s')
    /\ files s' = ∅
    /\ settingCaches s' = delete zip ∅
    /\ log s' = [call_os_Open p].
Proof.
  intros p.
  apply (setCache_missing_file
           (client (inr NoSuchKey) (inl archive) None) bucket notExist quiet
           zip p fresh (PathError "open" p ErrNotExist)).
  reflexivity.
Defined.

Lemma setCache_pending_witness :
  let p := localCacheFileName root zip in
  (exists s',
      setCache (client (inr NoSuchKey) (inl archive) None) bucket notExist
        noFileStat false zip p (staged p) = (true, s')
      /\ files s' = files (staged p)
      /\ settingCaches s' = settingCaches (staged p)
      /\ log s' = [call_os_Open p; call_File_Stat p; call_File_Close p])
  /\ (exists s',
      setCache (client (inr unavailable) (inl archive) None) bucket notExist
        quiet false zip p (staged p) = (true, s')
      /\ files s' = files (staged p)
      /\ settingCaches s' = settingCaches (staged p)
      /\ log s' = [call_os_Open p; call_File_Stat p;
                   call_StatObject bucket zip; call_File_Close p])
  /\ (exists s',
      setCache (client (inr NoSuchKey) (inl archive) (Some unavailable)) bucket
        notExist quiet false zip p (staged p) = (true, s')
      /\ files s' = files (staged p)
      /\ settingCaches s' = settingCaches (staged p)
      /\ log s' = [call_os_Open p; call_File_Stat p;
                   call_StatObject bucket zip;
                   call_PutObject bucket zip "PK-first" 8
                     {| ContentType := "application/zip";
                        DisableMultipart := true |};
                   call_File_Close p])
  /\ (exists s',
      setCache (client (inr NoSuchKey) (inl archive) None) bucket
        notExist quiet false zip p (staged p) = (true, s')
      /\ files s' = delete p (files (staged p))
      /\ settingCaches s' = delete zip (settingCaches (staged p))
      /\ log s' = [call_os_Open p; call_File_Stat p;
                   call_StatObject bucket zip;
                   call_PutObject bucket zip "PK-first" 8
                     {| ContentType := "application/zip";
                        DisableMultipart := true |};
                   call_Lock; call_os_Remove p; call_Unlock;
                   call_File_Close p]).
Proof.
  intros p. split; [| split; [| split]].
  - apply (proj1 (setCache_pending
                    (client (inr NoSuchKey) (inl archive) None) bucket notExist)
             noFileStat zip p (staged p) denied);
      [vm_compute; reflexivity | reflexivity].
  - apply (proj1 (proj2 (setCache_pending
                    (client (inr unavailable) (inl archive) None) bucket
                    notExist))
             quiet zip p (staged p) unavailable);
      [vm_compute; reflexivity | reflexivity | reflexivity | reflexivity].
  - apply (proj2 (proj2 (setCache_pending
                    (client (inr NoSuchKey) (inl archive) (Some unavailable))
                    bucket notExist))
             quiet zip p (staged p) NoSuchKey "PK-first"%string);
      [vm_compute; reflexivity | reflexivity | apply lookup_singleton_eq
      | reflexivity | reflexivity].
  - apply (proj2 (proj2 (setCache_pending
                    (client (inr NoSuchKey) (inl archive) None)
                    bucket notExist))
             quiet zip p (staged p) NoSuchKey "PK-first"%string);
      [vm_compute; reflexivity | reflexivity | apply lookup_singleton_eq
      | reflexivity | reflexivity].
Defined.

Lemma startSetCache_turn_settles_witness :
  let p := localCacheFileName root zip in
  exists s',
    startSetCache_turn (client (inr NoSuchKey) (inl archive) None) bucket
      notExist quiet running (staged p) = (true, s')
    /\ settingCaches s' = ∅
    /\ files s' !! p = None.
Proof.
  intros p.
  destruct (startSetCache_turn_settles
              (client (inr NoSuchKey) (inl archive) None) bucket notExist
              quiet running (staged p))
    as (s' & Hrun & Hreg & Hfiles & _).
  - reflexivity.
  - intros k v _. split; [reflexivity |]. split; [reflexivity |].
    right. exists NoSuchKey. repeat split.
  - exists s'. split; [exact Hrun |]. split; [exact Hreg |].
    apply (Hfiles zip p). apply lookup_singleton_eq.
Defined.

Lemma Set_then_upload_witness :
  let p := localCacheFileName root zip in
  let s1 := (goproxyCacher_Set quiet zip content fresh).2 in
  settingCaches s1 !! zip = Some p
  /\ exists rest,
      log (setCache (client (inr NoSuchKey) (inl archive) None) bucket notExist
             quiet false zip p s1).2
      = log s1 ++ [call_os_Open p; call_File_Stat p;
                   call_StatObject bucket zip;
                   call_PutObject bucket zip "PK-first" 8
                     (putObjectOptions zip 8)] ++ rest.
Proof.
  intros p s1.
  apply (Set_then_upload
           (client (inr NoSuchKey) (inl archive) None) bucket notExist
           quiet quiet zip content fresh s1 NoSuchKey);
    [reflexivity | vm_compute; reflexivity | reflexivity | reflexivity
    | reflexivity | reflexivity].
Defined.

Lemma startSetCache_turn_cancelled_witness :
  let p := localCacheFileName root zip in
  startSetCache_turn (client (inr NoSuchKey) (inl archive) None) bucket notExist
    quiet (fun _ => true) (staged p)
  = (false, add_log (call_Sleep time.Second) (staged p))
  /\ Range (fun k v =>
              setCache (client (inr NoSuchKey) (inl archive) None) bucket
                notExist quiet true k v)
       ([] ++ [(zip, p)]) (staged p)
     = (tt, staged p).
Proof.
  intros p. split.
  - apply (proj1 (startSetCache_turn_cancelled
                    (client (inr NoSuchKey) (inl archive) None) bucket notExist
                    quiet (fun _ => true))). reflexivity.
  - apply (proj2 (startSetCache_turn_cancelled
                    (client (inr NoSuchKey) (inl archive) None) bucket notExist
                    quiet (fun _ => true)) [] [] zip p (staged p)).
    reflexivity.
Defined.

Lemma startSetCache_returns_witness :
  (startSetCache (client (inr NoSuchKey) (inl archive) None) bucket notExist
     5 0 (fun _ => quiet) cancelledFrom2 fresh).1 = true
  /\ startSetCache (client (inr NoSuchKey) (inl archive) None) bucket notExist
       5 0 (fun _ => quiet) cancelledFrom2 fresh
     = startSetCache (client (inr NoSuchKey) (inl archive) None) bucket notExist
         3 0 (fun _ => quiet) cancelledFrom2 fresh.
Proof.
  apply (startSetCache_returns
           (client (inr NoSuchKey) (inl archive) None) bucket notExist
           (fun _ => quiet) cancelledFrom2 2 5 fresh); [reflexivity | lia].
Defined.

Lemma contentTypeOf_suffix_witness :
  contentTypeOf "example.com/mod/@v/v1.0.0.mod" = "text/plain; charset=utf-8"%string
  /\ contentTypeOf "example.com/mod/@v/list" = ""%string.
Proof.
  split.
  - apply (contentTypeOf_suffix "example.com/mod/@v/v1.0.0").
  - apply (proj2 (proj2 (proj2 (contentTypeOf_suffix "example.com/mod/@v")))
             "list"%string). reflexivity.
Defined.

Lemma Set_frame_witness :
  let p := localCacheFileName root zip in
  let s' :=
    (goproxyCacher_Set quiet "example.com/mod/@v/v1.0.0.mod" content (staged p)).2 in
  files s' !! p = Some "PK-first"%string
  /\ settingCaches s' !! zip = Some p.
Proof.
  intros p s'.
  destruct (Set_frame quiet "example.com/mod/@v/v1.0.0.mod" content (staged p))
    as (Hfiles & Hreg & _).
  unfold s'. split.
  - rewrite (Hfiles p); [apply lookup_singleton_eq |].
    vm_compute. discriminate.
  - rewrite (Hreg zip); [apply lookup_singleton_eq |]. discriminate.
Defined.

Lemma setCache_frame_witness :
  let p := localCacheFileName root zip in
  let s' :=
    (setCache (client (inr NoSuchKey) (inl archive) None) bucket notExist quiet
       false "other" "/tmp/other" (staged p)).2 in
  files s' !! p = Some "PK-first"%string
  /\ settingCaches s' !! zip = Some p.
Proof.
  intros p s'.
  destruct (setCache_frame
              (client (inr NoSuchKey) (inl archive) None) bucket notExist quiet
              false "other" "/tmp/other" (staged p)) as (Hfiles & Hreg).
  unfold s'. split.
  - rewrite (Hfiles p); [apply lookup_singleton_eq |].
    vm_compute. discriminate.
  - rewrite (Hreg zip); [apply lookup_singleton_eq |]. discriminate.
Defined.

(** ** Test vectors of the library functions *)

Example Clean_examples :
  map path.Clean
      ["" ; "abc" ; "abc/def" ; "." ; ".." ; "../.." ; "../../abc" ; "/abc" ; "/" ;
       "abc/" ; "abc/def/" ; "./" ; "../" ; "../../" ; "/abc/" ;
       "abc//def//ghi" ; "//abc" ; "///abc" ; "//abc//" ; "abc//" ;
       "abc/./def" ; "/./abc/def" ; "abc/." ;
       "abc/def/ghi/../jkl" ; "abc/def/../ghi/../jkl" ; "abc/def/.." ;
       "abc/def/../.." ; "/abc/def/../.." ; "abc/def/../../.." ;
       "/abc/def/../../.." ; "abc/def/../../../ghi/jkl/../../../mno" ;
       "abc/./../def" ; "abc//./../def" ; "abc/../../././../def"]%string
  = ["." ; "abc" ; "abc/def" ; "." ; ".." ; "../.." ; "../../abc" ; "/abc" ; "/" ;
     "abc" ; "abc/def" ; "." ; ".." ; "../.." ; "/abc" ;
     "abc/def/ghi" ; "/abc" ; "/abc" ; "/abc" ; "abc" ;
     "abc/def" ; "/abc/def" ; "abc" ;
     "abc/def/jkl" ; "abc/jkl" ; "abc" ;
     "." ; "/" ; ".." ;
     "/" ; "../../mno" ;
     "def" ; "def" ; "../../def"]%string.
Proof. vm_compute. reflexivity. Qed.

Example md5_vectors :
  map (fun s => hex.EncodeToString (md5.Sum (bytes_of_string s)))
      [""; "abc"; "message digest";
       "12345678901234567890123456789012345678901234567890123456789012345678901234567890"]%string
  = ["d41d8cd98f00b204e9800998ecf8427e"; "900150983cd24fb0d6963f7d28e17f72";
     "f96b697d7cb7938d525a2f31aaf161d0";
     "57edf4a22be3c955ac49da2e2107b67a"]%string.
Proof. vm_compute. reflexivity. Qed.

Example sha256_vectors :
  map (fun s => hex.EncodeToString (sha256.Sum256 (bytes_of_string s)))
      [""; "abc";
       "abcdbcdecdefdefgefghfghighijhijkijkljklmklmnlmnomnopnopq"]%string
  = ["e3b0c44298fc1c149afbf4c8996fb92427ae41e4649b934ca495991b7852b855";
     "ba7816bf8f01cfea414140de5dae2223b00361a396177a9cb410ff61f20015ad";
     "248d6a61d20638b8e5c026930c3e6039a33ce45964ff2167f6ecedd419db06c1"]%string.
Proof. vm_compute. reflexivity. Qed.

